(** * sensors: chip selection, dispatch and chip-name rendering

    A shallow embedding of [prog/sensors/main.c] (lm-sensors) and the
    properties of its selection and dispatch engine.

    Conventions of the embedding:
    - a C [int] is a [Z]; a loop index or a counter that only starts at 0 and
      is incremented is a [nat] (the bound [do_the_real_work_cnt_le] shows the
      counter stays below the number of detected chips, so no signed overflow
      is reachable for fewer than 2^31 chips);
    - a [char *] is an [option string], [None] being the null pointer;
    - output and calls into the library are recorded, in program order, as a
      list of [event]s;
    - [exit] is the [Exit] constructor of [result].
    The library (lib/sensors.h, lib/error.h, chips.h, version.h) is not part
    of the program text: its constants and functions are the fields of the
    class [libsensors]. *)

From Stdlib Require Import ZArith String Ascii Lia Bool.
From stdpp Require Import base option list strings.
From Equations Require Import Equations.

Open Scope Z_scope.

(** ** Strings and the printf family *)

Module Printf.

Definition str (s : string) : list ascii := list_ascii_of_string s.

(** The characters that C writes with an escape. *)
Definition nl : string := String (ascii_of_nat 10) EmptyString.
Definition tab : string := String (ascii_of_nat 9) EmptyString.
Definition dquote : string := String (ascii_of_nat 34) EmptyString.

Definition digit_char (d : Z) : ascii :=
  nth (Z.to_nat d) (str "0123456789abcdef") "0"%char.

(** The digit loop of the conversions: least significant digit first,
    each new digit put in front.  An [unsigned int] has 32 bits, hence at
    most 32 digits in any base. *)
Fixpoint utoa_loop (fuel : nat) (base n : Z) (acc : string) : string :=
  match fuel with
  | O => acc
  | S fuel' =>
      let acc' := String (digit_char (n mod base)) acc in
      if n / base =? 0 then acc' else utoa_loop fuel' base (n / base) acc'
  end.

Definition utoa (base n : Z) : string := utoa_loop 32 base n EmptyString.

Fixpoint fill (c : ascii) (k : nat) : string :=
  match k with
  | O => EmptyString
  | S k' => String c (fill c k')
  end.

(** Padding on the left up to the field width. *)
Definition pad (c : ascii) (width : nat) (s : string) : string :=
  (fill c (width - String.length s) +:+ s)%string.

(** The conversion of an [int] to [unsigned int]. *)
Definition to_unsigned (n : Z) : Z := n mod 2 ^ 32.

(** [%x], [%wx] and [%0wx]: the [int] argument is read as an [unsigned
    int]; the [0] flag pads with zeros instead of spaces. *)
Definition pct_x (zero : bool) (width : nat) (n : Z) : string :=
  pad (if zero then "0"%char else " "%char) width (utoa 16 (to_unsigned n)).

(** [%d] *)
Definition pct_d (n : Z) : string :=
  if n <? 0 then String "-"%char (utoa 10 (- n)) else utoa 10 n.

(** [%s]; for a null pointer the C library of the platform writes
    [(null)]. *)
Definition pct_s (s : option string) : string :=
  match s with
  | Some s => s
  | None => "(null)"%string
  end.

Inductive arg : Type :=
| ArgS (s : option string)
| ArgI (n : Z).

(** Where the interpreter is in the format: in literal text, or inside a
    conversion specification whose flag and width have been read so far. *)
Inductive fstate : Type :=
| Text
| Spec (zero : bool) (width : nat).

Definition is_digit (c : ascii) : bool :=
  (48 <=? nat_of_ascii c)%nat && (nat_of_ascii c <=? 57)%nat.

Definition digit_of (c : ascii) : nat := (nat_of_ascii c - 48)%nat.

(** The conversions used by the program: [%s], [%d], [%x] with an optional
    [0] flag and a decimal width, and [%%]. *)
Fixpoint vformat (st : fstate) (fmt : string) (args : list arg) : string :=
  match fmt with
  | EmptyString => EmptyString
  | String c rest =>
      match st with
      | Text =>
          if Ascii.eqb c "%" then vformat (Spec false 0) rest args
          else String c (vformat Text rest args)
      | Spec zero width =>
          if Ascii.eqb c "0" && negb zero && Nat.eqb width 0
          then vformat (Spec true 0) rest args
          else if is_digit c
          then vformat (Spec zero (10 * width + digit_of c)) rest args
          else if Ascii.eqb c "%"
          then String c (vformat Text rest args)
          else
            match args with
            | ArgS s :: args' =>
                if Ascii.eqb c "s"
                then (pct_s s +:+ vformat Text rest args')%string
                else vformat Text rest args'
            | ArgI n :: args' =>
                if Ascii.eqb c "d"
                then (pct_d n +:+ vformat Text rest args')%string
                else if Ascii.eqb c "x"
                then (pct_x zero width n +:+ vformat Text rest args')%string
                else vformat Text rest args'
            | [] => vformat Text rest args
            end
      end
  end.

Definition sprintf (fmt : string) (args : list arg) : string :=
  vformat Text fmt args.

(** [snprintf(buf, size, fmt, ...)]: at most [size - 1] characters are
    stored, followed by the terminating null. *)
Definition snprintf (size : nat) (fmt : string) (args : list arg) : string :=
  String.substring 0 (size - 1) (sprintf fmt args).

End Printf.

Import Printf.

(** ** What a rendered number denotes

    A reading of numerals that does not go through the digit loop: used to
    say what the digits of a rendered chip name stand for. *)

Definition hex_digit_value (c : ascii) : option Z :=
  let n := Z.of_nat (nat_of_ascii c) in
  if (48 <=? n) && (n <=? 57) then Some (n - 48)
  else if (97 <=? n) && (n <=? 102) then Some (n - 87)
  else None.

Definition dec_digit_value (c : ascii) : option Z :=
  let n := Z.of_nat (nat_of_ascii c) in
  if (48 <=? n) && (n <=? 57) then Some (n - 48) else None.

(** The value of a numeral read from the left, [acc] being the value of the
    digits already read. *)
Fixpoint value_from (digit : ascii -> option Z) (base acc : Z) (s : string)
  : option Z :=
  match s with
  | EmptyString => Some acc
  | String c rest =>
      match digit c with
      | Some d => value_from digit base (base * acc + d) rest
      | None => None
      end
  end.

(** The value of a non-empty numeral of lowercase hexadecimal digits. *)
Definition hex_value (s : string) : option Z :=
  match s with
  | EmptyString => None
  | _ => value_from hex_digit_value 16 0 s
  end.

(** The value of a decimal numeral with an optional minus sign. *)
Definition dec_value (s : string) : option Z :=
  match s with
  | EmptyString => None
  | String c rest =>
      if Ascii.eqb c "-" then
        match rest with
        | EmptyString => None
        | _ => Z.opp <$> value_from dec_digit_value 10 0 rest
        end
      else value_from dec_digit_value 10 0 s
  end.

(** The range of a C [int]. *)
Definition is_int (n : Z) : Prop := - 2 ^ 31 <= n < 2 ^ 31.

(** A numeral without a leading zero: a single digit, or a first digit
    other than [0]. *)
Definition no_leading_zero (s : string) : Prop :=
  match s with
  | String c (String _ _) => c <> "0"%char
  | _ => True
  end.

(** The numeral of [v] in lowercase hexadecimal, padded with zeros to [w]
    digits: its digits denote [v], there are at least [w] of them, and more
    than [w] only when none in front is a zero. *)
Definition is_hex_numeral (w : nat) (v : Z) (s : string) : Prop :=
  hex_value s = Some v
  /\ (w <= String.length s)%nat
  /\ ((w < String.length s)%nat -> no_leading_zero s).

(** The numeral of [n] in decimal: a minus sign exactly when [n] is
    negative, then the digits of its absolute value without a leading
    zero. *)
Definition is_dec_numeral (n : Z) (s : string) : Prop :=
  dec_value s = Some n
  /\ match s with
     | EmptyString => False
     | String c rest =>
         if Ascii.eqb c "-" then n < 0 /\ no_leading_zero rest
         else no_leading_zero s
     end.

(** ** The data model of lib/sensors.h *)

(** [struct sensors_chip_name], as the program uses its members: [prefix]
    and [busname] are printed with [%s], [bus] is compared with the bus
    constants and printed with [%d], [addr] is printed with [%x]. *)
Record sensors_chip_name : Type := {
  prefix : option string;
  bus : Z;
  addr : Z;
  busname : option string
}.

(** The contents of static storage before the program writes to it. *)
Definition zero_chip_name : sensors_chip_name :=
  {| prefix := None; bus := 0; addr := 0; busname := None |}.

#[global] Instance sensors_chip_name_inhabited : Inhabited sensors_chip_name :=
  populate zero_chip_name.

#[global] Instance sensors_chip_name_eq_dec : EqDecision sensors_chip_name.
Proof. solve_decision. Defined.

(** What the program takes from the library and from its surroundings.
    The constants come from lib/sensors.h, lib/error.h, version.h and the
    build ([ETCDIR]); the functions are the library entry points the program
    calls, as functions of their arguments; [detected_chips] is the
    sequence the library's enumerator walks through; the last fields say
    how the C library answers [fopen] and [fclose] on the configuration
    file. *)
Class libsensors : Type := {
  SENSORS_CHIP_NAME_BUS_ISA : Z;
  SENSORS_CHIP_NAME_BUS_PCI : Z;
  SENSORS_CHIP_NAME_BUS_DUMMY : Z;
  SENSORS_CHIP_NAME_BUS_ANY : Z;
  SENSORS_CHIP_NAME_ADDR_ANY : Z;
  SENSORS_ERR_PROC : Z;
  SENSORS_ERR_ACCESS_W : Z;
  ETCDIR : string;
  LM_VERSION : string;
  libsensors_version : string;
  sensors_parse_chip_name : string -> Z * sensors_chip_name;
  sensors_match_chip : sensors_chip_name -> sensors_chip_name -> bool;
  sensors_do_chip_sets : sensors_chip_name -> Z;
  sensors_get_adapter_name : Z -> option string;
  sensors_strerror : Z -> string;
  sensors_init : string -> Z;
  detected_chips : list sensors_chip_name;
  fopen_succeeds : string -> bool;
  fclose_succeeds : string -> bool
}.

(** What the program does that can be observed from outside, in order.
    [GetoptError] is the line that [getopt_long] itself writes to the
    standard error stream when it rejects an option; its text is the C
    library's. *)
Inductive event : Type :=
| Stdout (s : string)
| Stderr (s : string)
| Perror (s : string)
| GetoptError
| MatchChip (chip : sensors_chip_name) (i : nat)
| DoChipSets (chip : sensors_chip_name)
| PrintUnknownChip (chip : sensors_chip_name)
| PrintGenericChip (chip : sensors_chip_name)
| SensorsInit (config : string)
| SensorsCleanup.

#[global] Instance event_eq_dec : EqDecision event.
Proof. solve_decision. Defined.

(** A function that may call [exit]. *)
Inductive result (A : Type) : Type :=
| Exit (status : Z)
| Continue (a : A).
Arguments Exit {A} status.
Arguments Continue {A} a.

(** The global variables of main.c. *)
Record globals : Type := {
  chips : list sensors_chip_name;
  chips_count : nat;
  do_sets : Z;
  do_unknown : Z;
  fahrenheit : Z;
  hide_adapter : Z;
  hide_unknown : Z
}.

Definition CHIPS_MAX : nat := 20.
Definition BUF_SIZE : nat := 200.
Definition PROGRAM : string := "sensors".
Definition DEFAULT_CONFIG_FILE_NAME : string := "sensors.conf".

(** Static storage at program start. *)
Definition initial_globals : globals :=
  {| chips := replicate CHIPS_MAX zero_chip_name;
     chips_count := 0;
     do_sets := 0; do_unknown := 0; fahrenheit := 0;
     hide_adapter := 0; hide_unknown := 0 |}.

Definition set_chips (v : list sensors_chip_name) (g : globals) : globals :=
  {| chips := v; chips_count := chips_count g; do_sets := do_sets g;
     do_unknown := do_unknown g; fahrenheit := fahrenheit g;
     hide_adapter := hide_adapter g; hide_unknown := hide_unknown g |}.
Definition set_chips_count (v : nat) (g : globals) : globals :=
  {| chips := chips g; chips_count := v; do_sets := do_sets g;
     do_unknown := do_unknown g; fahrenheit := fahrenheit g;
     hide_adapter := hide_adapter g; hide_unknown := hide_unknown g |}.
Definition set_do_sets (v : Z) (g : globals) : globals :=
  {| chips := chips g; chips_count := chips_count g; do_sets := v;
     do_unknown := do_unknown g; fahrenheit := fahrenheit g;
     hide_adapter := hide_adapter g; hide_unknown := hide_unknown g |}.
Definition set_do_unknown (v : Z) (g : globals) : globals :=
  {| chips := chips g; chips_count := chips_count g; do_sets := do_sets g;
     do_unknown := v; fahrenheit := fahrenheit g;
     hide_adapter := hide_adapter g; hide_unknown := hide_unknown g |}.
Definition set_fahrenheit (v : Z) (g : globals) : globals :=
  {| chips := chips g; chips_count := chips_count g; do_sets := do_sets g;
     do_unknown := do_unknown g; fahrenheit := v;
     hide_adapter := hide_adapter g; hide_unknown := hide_unknown g |}.
Definition set_hide_adapter (v : Z) (g : globals) : globals :=
  {| chips := chips g; chips_count := chips_count g; do_sets := do_sets g;
     do_unknown := do_unknown g; fahrenheit := fahrenheit g;
     hide_adapter := v; hide_unknown := hide_unknown g |}.
Definition set_hide_unknown (v : Z) (g : globals) : globals :=
  {| chips := chips g; chips_count := chips_count g; do_sets := do_sets g;
     do_unknown := do_unknown g; fahrenheit := fahrenheit g;
     hide_adapter := hide_adapter g; hide_unknown := v |}.

(** The local variables of [do_the_real_work] that its loops update,
    together with the events so far. *)
Record work : Type := {
  cnt : nat;
  error : Z;
  trace : list event
}.

(** C truth of an [int]. *)
Definition truthy (n : Z) : bool := negb (n =? 0).

(** Modelled from the spec: the wildcard prefix of lib/sensors.h, which is
    not among the sources.  The spec has [prefix] either a literal
    chip-driver name string or the wildcard value ANY; the wildcard is taken
    to be the null pointer, the one [char *] that is not a string, so that
    the pointer comparison of [main] is equality of [option string]. *)
Definition SENSORS_CHIP_NAME_PREFIX_ANY : option string := None.

(** A function that writes and may exit: its events and its outcome. *)
Definition prog (A : Type) : Type := list event * result A.

Definition ret {A : Type} (a : A) : prog A := ([], Continue a).
Definition emit (evs : list event) : prog unit := (evs, Continue tt).
Definition exit {A : Type} (status : Z) : prog A := ([], Exit status).

Definition bind {A B : Type} (m : prog A) (k : A -> prog B) : prog B :=
  match m with
  | (t, Exit s) => (t, Exit s)
  | (t, Continue a) => let (t', r) := k a in (t ++ t', r)
  end.

Notation "'do' x <- m ; k" := (bind m (fun x => k))
  (at level 10, x name, m at level 100, k at level 200).

(** To match on the value of a call and keep the equation. *)
Definition inspect {A : Type} (a : A) : {b : A | a = b} := exist _ a eq_refl.

Section Program.

Context `{L : libsensors}.

Local Open Scope string_scope.
Local Open Scope list_scope.
Local Open Scope Z_scope.

Definition printf (fmt : string) (args : list arg) : event :=
  Stdout (sprintf fmt args).
Definition fprintf_stderr (fmt : string) (args : list arg) : event :=
  Stderr (sprintf fmt args).

Definition sprintf_chip_name (name : sensors_chip_name) : string :=
  if bus name =? SENSORS_CHIP_NAME_BUS_ISA then
    snprintf BUF_SIZE "%s-isa-%04x" [ArgS (prefix name); ArgI (addr name)]
  else if bus name =? SENSORS_CHIP_NAME_BUS_PCI then
    snprintf BUF_SIZE "%s-pci-%04x" [ArgS (prefix name); ArgI (addr name)]
  else if bus name =? SENSORS_CHIP_NAME_BUS_DUMMY then
    snprintf BUF_SIZE "%s-%s-%04x"
      [ArgS (prefix name); ArgS (busname name); ArgI (addr name)]
  else
    snprintf BUF_SIZE "%s-i2c-%d-%02x"
      [ArgS (prefix name); ArgI (bus name); ArgI (addr name)].

(** returns 1 on error *)
Definition do_a_set (name : sensors_chip_name) : list event * Z :=
  let res := sensors_do_chip_sets name in
  if truthy res then
    if res =? - SENSORS_ERR_PROC then
      ([DoChipSets name;
        fprintf_stderr ("%s: %s for writing;" +:+ nl)
          [ArgS (Some (sprintf_chip_name name));
           ArgS (Some (sensors_strerror res))];
        fprintf_stderr ("Run as root?" +:+ nl) []], 1)
    else if res =? - SENSORS_ERR_ACCESS_W then
      ([DoChipSets name;
        fprintf_stderr
          ("%s: At least one " +:+ dquote +:+ "set" +:+ dquote
             +:+ " statement failed" +:+ nl)
          [ArgS (Some (sprintf_chip_name name))]], 0)
    else
      ([DoChipSets name;
        fprintf_stderr ("%s: %s" +:+ nl)
          [ArgS (Some (sprintf_chip_name name));
           ArgS (Some (sensors_strerror res))]], 0)
  else ([DoChipSets name], 0).

Definition do_a_print (g : globals) (name : sensors_chip_name) : list event :=
  if truthy (hide_unknown g) then []
  else
    [printf ("%s" +:+ nl) [ArgS (Some (sprintf_chip_name name))]]
    ++ (if negb (truthy (hide_adapter g)) then
          match sensors_get_adapter_name (bus name) with
          | Some adap => [printf ("Adapter: %s" +:+ nl) [ArgS (Some adap)]]
          | None =>
              [fprintf_stderr ("Can't get adapter name for bus %d" +:+ nl)
                 [ArgI (bus name)]]
          end
        else [])
    ++ [if truthy (do_unknown g) then PrintUnknownChip name
        else PrintGenericChip name]
    ++ [printf nl []].

(** The body of the [if] in the inner loop of [do_the_real_work], up to
    the assignment to [i]: the action and [cnt++]. *)
Definition dispatch (g : globals) (chip : sensors_chip_name) (w : work) : work :=
  if truthy (do_sets g) then
    let (evs, r) := do_a_set chip in
    {| cnt := S (cnt w);
       error := if truthy r then 1 else error w;
       trace := trace w ++ evs |}
  else
    {| cnt := S (cnt w);
       error := error w;
       trace := trace w ++ do_a_print g chip |}.

Definition log (ev : event) (w : work) : work :=
  {| cnt := cnt w; error := error w; trace := trace w ++ [ev] |}.

(** [for(i = ...; i < chips_count; i++) if (sensors_match_chip(chip,
    &chips[i])) { ...; i = chips_count; cnt++; }], entered with the given
    [i]. *)
Equations scan_chips (g : globals) (chip : sensors_chip_name)
    (i : nat) (w : work) : work by wf (chips_count g - i)%nat lt :=
  scan_chips g chip i w with lt_dec i (chips_count g) => {
    | left _ =>
        if sensors_match_chip chip (chips g !!! i)
        then scan_chips g chip (S (chips_count g))
               (dispatch g chip (log (MatchChip chip i) w))
        else scan_chips g chip (S i) (log (MatchChip chip i) w)
    | right _ => w }.
Next Obligation. lia. Qed.
Next Obligation. lia. Qed.

(** Modelled from the spec: [sensors_get_detected_chips] of the library,
    which is not among the sources.  The spec has the enumerator yield the
    detected chips one at a time until exhausted, as a finite sequence that
    does not restart; [nr] is the cursor the caller passes by reference,
    returned advanced by one. *)
Definition sensors_get_detected_chips (nr : nat)
  : option sensors_chip_name * nat :=
  (detected_chips !! nr, S nr).

(** [for (chip_nr = ...; (chip = sensors_get_detected_chips(&chip_nr));)
    for (i = 0; ...) ...], entered with the given [chip_nr]. *)
Equations enumerate (g : globals) (chip_nr : nat) (w : work) : work
    by wf (length detected_chips - chip_nr)%nat lt :=
  enumerate g chip_nr w with inspect (sensors_get_detected_chips chip_nr) => {
    | exist _ (Some chip, chip_nr') Hnext =>
        enumerate g chip_nr' (scan_chips g chip 0 w)
    | exist _ (None, _) _ => w }.
Next Obligation.
  match goal with H : _ !! _ = Some _ |- _ => apply lookup_lt_Some in H end.
  lia.
Qed.

(** returns number of chips found *)
Definition do_the_real_work (g : globals) : work :=
  enumerate g 0 {| cnt := 0; error := 0; trace := [] |}.

Definition print_short_help : list event :=
  [printf ("Try `%s -h' for more information" +:+ nl) [ArgS (Some PROGRAM)]].

Definition print_long_help : list event :=
  [printf ("Usage: %s [OPTION]... [CHIP]..." +:+ nl) [ArgS (Some PROGRAM)];
   printf ("  -c, --config-file     Specify a config file (default: "
             +:+ ETCDIR +:+ "/" +:+ DEFAULT_CONFIG_FILE_NAME +:+ ")" +:+ nl) [];
   printf ("  -h, --help            Display this help text" +:+ nl) [];
   printf ("  -s, --set             Execute `set' statements too (root only)" +:+ nl) [];
   printf ("  -f, --fahrenheit      Show temperatures in degrees fahrenheit" +:+ nl) [];
   printf ("  -A, --no-adapter      Do not show adapter for each chip" +:+ nl) [];
   printf ("  -U, --no-unknown      Do not show unknown chips" +:+ nl) [];
   printf ("  -u, --unknown         Treat chips as unknown ones (testing only)" +:+ nl) [];
   printf ("  -v, --version         Display the program version" +:+ nl) [];
   printf nl [];
   printf ("Use `-' after `-c' to read the config file from stdin." +:+ nl) [];
   printf ("If no chips are specified, all chip info will be printed." +:+ nl) [];
   printf ("Example chip names:" +:+ nl) [];
   printf (tab +:+ "lm78-i2c-0-2d" +:+ tab +:+ "*-i2c-0-2d" +:+ nl) [];
   printf (tab +:+ "lm78-i2c-0-*" +:+ tab +:+ "*-i2c-0-*" +:+ nl) [];
   printf (tab +:+ "lm78-i2c-*-2d" +:+ tab +:+ "*-i2c-*-2d" +:+ nl) [];
   printf (tab +:+ "lm78-i2c-*-*" +:+ tab +:+ "*-i2c-*-*" +:+ nl) [];
   printf (tab +:+ "lm78-isa-0290" +:+ tab +:+ "*-isa-0290" +:+ nl) [];
   printf (tab +:+ "lm78-isa-*" +:+ tab +:+ "*-isa-*" +:+ nl) [];
   printf (tab +:+ "lm78-*" +:+ nl) []].

Definition print_version : list event :=
  [printf ("%s version %s with libsensors version %s" +:+ nl)
     [ArgS (Some PROGRAM); ArgS (Some LM_VERSION);
      ArgS (Some libsensors_version)]].

(** Opens the configuration file; [-] stands for the standard input. *)
Definition open_config_file (config_file_name : string) : prog unit :=
  if String.eqb config_file_name "-" then ret tt
  else if fopen_succeeds config_file_name then ret tt
  else
    do _ <- emit [fprintf_stderr ("Could not open config file" +:+ nl) [];
                  Perror config_file_name];
    exit 1.

Definition close_config_file (config_file_name : string) : prog unit :=
  if fclose_succeeds config_file_name then ret tt
  else emit [fprintf_stderr ("Could not close config file" +:+ nl) [];
             Perror config_file_name].

(** What the call [getopt_long(argc, argv, "hsvfAUc:u", long_opts, NULL)]
    writes itself before it answers [c].  [main] leaves [opterr] at its
    initial value 1 and the option string has no leading colon: an unknown
    option, and an option whose argument is missing or not allowed, is
    reported by the call on the standard error stream and answered with
    [?].  The answer [:] is given only under a leading colon, without a
    report. *)
Definition getopt_long_reports (c : ascii) : list event :=
  if Ascii.eqb c "?" then [GetoptError] else [].

(** [while (1) { c = getopt_long(...); if (c == EOF) break; switch(c)
    {...} }].  [opts] are the successive answers of [getopt_long], each
    with the [optarg] it leaves; the end of the list is [EOF]. *)
Fixpoint getopt_loop (opts : list (ascii * string)) (g : globals)
    (config_file_name : string) : prog (globals * string) :=
  match opts with
  | [] => ret (g, config_file_name)
  | (c, optarg) :: opts' =>
      if Ascii.eqb c ":" || Ascii.eqb c "?" then
        do _ <- emit (getopt_long_reports c ++ print_short_help); exit 1
      else if Ascii.eqb c "h" then
        do _ <- emit print_long_help; exit 0
      else if Ascii.eqb c "v" then
        do _ <- emit print_version; exit 0
      else if Ascii.eqb c "c" then getopt_loop opts' g optarg
      else if Ascii.eqb c "s" then
        getopt_loop opts' (set_do_sets 1 g) config_file_name
      else if Ascii.eqb c "f" then
        getopt_loop opts' (set_fahrenheit 1 g) config_file_name
      else if Ascii.eqb c "A" then
        getopt_loop opts' (set_hide_adapter 1 g) config_file_name
      else if Ascii.eqb c "U" then
        getopt_loop opts' (set_hide_unknown 1 g) config_file_name
      else if Ascii.eqb c "u" then
        getopt_loop opts' (set_do_unknown 1 g) config_file_name
      else
        do _ <- emit [fprintf_stderr
                        ("Internal error while parsing options!" +:+ nl) []];
        exit 1
  end.

(** [for(i = optind; i < argc; i++) if ((res =
    sensors_parse_chip_name(argv[i],chips+chips_count))) {...} else if
    (++chips_count == CHIPS_MAX) {...}], over the arguments left. *)
Fixpoint parse_chip_names (args : list string) (g : globals) : prog globals :=
  match args with
  | [] => ret g
  | a :: args' =>
      let (res, parsed) := sensors_parse_chip_name a in
      let g1 := set_chips (<[chips_count g := parsed]> (chips g)) g in
      if truthy res then
        do _ <- emit ([fprintf_stderr ("Parse error in chip name `%s'" +:+ nl)
                         [ArgS (Some a)]] ++ print_short_help);
        exit 1
      else
        let g2 := set_chips_count (S (chips_count g1)) g1 in
        if Nat.eqb (chips_count g2) CHIPS_MAX then
          do _ <- emit [fprintf_stderr
                          ("Too many chips on command line!" +:+ nl) []];
          exit 1
        else parse_chip_names args' g2
  end.

(** [if (optind == argc) {...} else for ...]: the list of chip names the
    user asked for, [args] being [argv[optind]] to [argv[argc - 1]]. *)
Definition chips_from_args (args : list string) (g : globals) : prog globals :=
  match args with
  | [] =>
      ret (set_chips_count 1
             (set_chips
                (<[0%nat :=
                     {| prefix := SENSORS_CHIP_NAME_PREFIX_ANY;
                        bus := SENSORS_CHIP_NAME_BUS_ANY;
                        addr := SENSORS_CHIP_NAME_ADDR_ANY;
                        busname := busname (chips g !!! 0%nat) |}]>
                   (chips g))
                g))
  | _ => parse_chip_names args g
  end.

(** [do_unknown = 0; do_sets = 0; hide_adapter = 0; hide_unknown = 0;] on
    the initial values. *)
Definition reset_globals : globals :=
  set_hide_unknown 0
    (set_hide_adapter 0 (set_do_sets 0 (set_do_unknown 0 initial_globals))).

(** [main] up to the call of [do_the_real_work].  [set_degstr] only
    assigns [degstr], which the chip printers of chips.c read. *)
Definition startup (opts : list (ascii * string)) (args : list string)
  : prog globals :=
  do gc <- getopt_loop opts reset_globals
             (ETCDIR +:+ "/" +:+ DEFAULT_CONFIG_FILE_NAME);
  let (g1, config_file_name) := gc : globals * string in
  do g2 <- chips_from_args args g1;
  do _ <- open_config_file config_file_name;
  do _ <- emit [SensorsInit config_file_name];
  let res := sensors_init config_file_name in
  if truthy res then
    do _ <- emit [fprintf_stderr ("sensors_init: %s" +:+ nl)
                    [ArgS (Some (sensors_strerror res))]];
    exit 1
  else
    do _ <- close_config_file config_file_name;
    ret g2.

(** The [fprintf] of the branch of [main] taken when no chip was
    handled. *)
Definition not_found_message (g : globals) : event :=
  if bool_decide (prefix (chips g !!! 0%nat) = SENSORS_CHIP_NAME_PREFIX_ANY)
  then fprintf_stderr
         ("No sensors found!" +:+ nl
            +:+ "Make sure you loaded all the kernel drivers you need." +:+ nl
            +:+ "Try sensors-detect to find out which these are." +:+ nl) []
  else fprintf_stderr ("Specified sensor(s) not found!" +:+ nl) [].

(** [main] from the call of [do_the_real_work] on: the events and the
    exit status. *)
Definition report (g : globals) : list event * Z :=
  let w := do_the_real_work g in
  if negb (Nat.eqb (cnt w) 0) then
    (trace w ++ [SensorsCleanup], error w)
  else
    (trace w ++ [not_found_message g] ++ [SensorsCleanup], 1).

(** [main]: every path ends in [exit]. *)
Definition main (opts : list (ascii * string)) (args : list string)
  : list event * Z :=
  match startup opts args with
  | (t, Exit status) => (t, status)
  | (t, Continue g) => let (t', status) := report g in (t ++ t', status)
  end.

End Program.

(** ** The notions of the statements

    The dispatcher as the specification words it, and what the statements
    below read off a run. *)

Section Selection.

Context `{L : libsensors}.

(** The specs of the run, in command-line order: [chips[0]] to
    [chips[chips_count - 1]]. *)
Definition spec_list (g : globals) : list sensors_chip_name :=
  (fun i => chips g !!! i) <$> seq 0 (chips_count g).

(** The position of the first spec that matches the chip, if any. *)
Definition first_match (g : globals) (chip : sensors_chip_name) : option nat :=
  fst <$> list_find (fun s => sensors_match_chip chip s = true) (spec_list g).

(** [k] successive matcher calls on the chip, from spec [i] on. *)
Definition match_events (chip : sensors_chip_name) (i k : nat) : list event :=
  MatchChip chip <$> seq i k.

(** One action of the mode of the run on the chip: what it writes and
    whether it reports a failure. *)
Definition action (g : globals) (chip : sensors_chip_name) : list event * bool :=
  if truthy (do_sets g)
  then (fst (do_a_set chip), truthy (snd (do_a_set chip)))
  else (do_a_print g chip, false).

(** What the run does for one detected chip. *)
Definition chip_events (g : globals) (chip : sensors_chip_name) : list event :=
  match first_match g chip with
  | Some k => match_events chip 0 (S k) ++ fst (action g chip)
  | None => match_events chip 0 (chips_count g)
  end.

Definition selected (g : globals) (chip : sensors_chip_name) : bool :=
  bool_decide (is_Some (first_match g chip)).

(** What reaches the user: the two output streams and the chip
    printers. *)
Definition is_output (ev : event) : bool :=
  match ev with
  | Stdout _ | Stderr _ | Perror _ | GetoptError
  | PrintUnknownChip _ | PrintGenericChip _ => true
  | _ => false
  end.

Definition output (t : list event) : list event :=
  List.filter is_output t.

(** A spec with the three wildcards. *)
Definition is_any (s : sensors_chip_name) : Prop :=
  prefix s = SENSORS_CHIP_NAME_PREFIX_ANY
  /\ bus s = SENSORS_CHIP_NAME_BUS_ANY
  /\ addr s = SENSORS_CHIP_NAME_ADDR_ANY.

(** The standard output alone. *)
Definition is_printed (ev : event) : bool :=
  match ev with
  | Stdout _ | PrintUnknownChip _ | PrintGenericChip _ => true
  | _ => false
  end.

Definition printed (t : list event) : list event :=
  List.filter is_printed t.

(** The value of a flag after the option loop: 1 when its letter is among
    the options, its value before otherwise. *)
Definition flag_after (c : ascii) (opts : list (ascii * string)) (v : Z) : Z :=
  if existsb (fun o => Ascii.eqb (fst o) c) opts then 1 else v.

(** The options that do not end the program. *)
Definition accepted_option (o : ascii * string) : bool :=
  existsb (Ascii.eqb (fst o)) (str "csfAUu").

(** The names of the command line that the parser accepts. *)
Definition well_formed (a : string) : Prop :=
  fst (sensors_parse_chip_name a) = 0.

(** What the buffer of [sprintf_chip_name] holds of a rendering. *)
Definition cut (s : string) : string := String.substring 0 (BUF_SIZE - 1) s.

(** The events a loop adds. *)
Definition add_trace (w : work) (evs : list event) : work :=
  {| cnt := cnt w; error := error w; trace := trace w ++ evs |}.

(** The chips [sensors_do_chip_sets] was called on, in order. *)
Definition sets_calls (t : list event) : list sensors_chip_name :=
  omap (fun ev => match ev with DoChipSets c => Some c | _ => None end) t.

(** The chips a chip printer was called on, in order. *)
Definition printer_calls (t : list event) : list sensors_chip_name :=
  omap (fun ev => match ev with
                  | PrintUnknownChip c | PrintGenericChip c => Some c
                  | _ => None
                  end) t.

End Selection.

(** ** A library to run the program on

    The constants get values of the kind the headers of the library give
    them (negative bus constants, so that no I2C bus number is one of them;
    small positive error numbers); the functions are given per example. *)

Module Sample.

Local Open Scope string_scope.
Local Open Scope list_scope.
Local Open Scope Z_scope.

(** A matcher in the manner of the specification: every field of the
    spec is a wildcard or equal to the chip's, and on the dummy bus the
    bus names are equal too. *)
Definition match_chip (chip spec : sensors_chip_name) : bool :=
  (bool_decide (prefix spec = None) || bool_decide (prefix spec = prefix chip))
  && ((bus spec =? -2)
      || ((bus spec =? bus chip)
          && (negb (bus spec =? -4)
              || bool_decide (busname spec = busname chip))))
  && ((addr spec =? -1) || (addr spec =? addr chip)).

(** A parser that knows the all-wildcard name only. *)
Definition parse_chip_name (s : string) : Z * sensors_chip_name :=
  if String.eqb s "*"
  then (0, {| prefix := None; bus := -2; addr := -1; busname := None |})
  else (-6, zero_chip_name).

Definition lib (detected : list sensors_chip_name)
    (sets : sensors_chip_name -> Z) (adapter : Z -> option string)
  : libsensors :=
  {| SENSORS_CHIP_NAME_BUS_ISA := -1;
     SENSORS_CHIP_NAME_BUS_PCI := -5;
     SENSORS_CHIP_NAME_BUS_DUMMY := -4;
     SENSORS_CHIP_NAME_BUS_ANY := -2;
     SENSORS_CHIP_NAME_ADDR_ANY := -1;
     SENSORS_ERR_PROC := 4;
     SENSORS_ERR_ACCESS_W := 9;
     ETCDIR := "/etc";
     LM_VERSION := "2.10.8";
     libsensors_version := "2.10.8";
     sensors_parse_chip_name := parse_chip_name;
     sensors_match_chip := match_chip;
     sensors_do_chip_sets := sets;
     sensors_get_adapter_name := adapter;
     sensors_strerror := fun _ => "Unknown error";
     sensors_init := fun _ => 0;
     detected_chips := detected;
     fopen_succeeds := fun _ => true;
     fclose_succeeds := fun _ => true |}.

Definition lm78_isa : sensors_chip_name :=
  {| prefix := Some "lm78"; bus := -1; addr := 45; busname := None |}.
Definition lm75_i2c : sensors_chip_name :=
  {| prefix := Some "lm75"; bus := 0; addr := 72; busname := None |}.

(** A chip on a dummy bus that is named like the ISA bus. *)
Definition lm78_dummy : sensors_chip_name :=
  {| prefix := Some "lm78"; bus := -4; addr := 45; busname := Some "isa" |}.

Definition no_adapter (b : Z) : option string := None.

(** The write of the first chip fails in part, that of the second
    succeeds. *)
Definition sets_partial (chip : sensors_chip_name) : Z :=
  if addr chip =? 45 then -9 else 0.

Definition all_ok (chip : sensors_chip_name) : Z := 0.

(** The globals after [sensors -s] and after [sensors] with no chip
    argument. *)
Definition any_spec : sensors_chip_name :=
  {| prefix := None; bus := -2; addr := -1; busname := None |}.
Definition globals_any (sets_flag hide : Z) : globals :=
  {| chips := <[0%nat := any_spec]> (replicate CHIPS_MAX zero_chip_name);
     chips_count := 1;
     do_sets := sets_flag; do_unknown := 0; fahrenheit := 0;
     hide_adapter := 0; hide_unknown := hide |}.

(** A chip whose prefix has 200 characters. *)
Definition long_prefix : string :=
  String.concat EmptyString (replicate 200%nat "a").
Definition long_chip : sensors_chip_name :=
  {| prefix := Some long_prefix; bus := -1; addr := 656; busname := None |}.

(** Two specs that both match every chip, and one that matches none of
    the chips above. *)
Definition globals_two_any : globals :=
  {| chips := <[1%nat := any_spec]>
                (<[0%nat := any_spec]> (replicate CHIPS_MAX zero_chip_name));
     chips_count := 2;
     do_sets := 0; do_unknown := 0; fahrenheit := 0;
     hide_adapter := 0; hide_unknown := 0 |}.
Definition w83781d_spec : sensors_chip_name :=
  {| prefix := Some "w83781d"; bus := -2; addr := -1; busname := None |}.
Definition globals_w83781d : globals :=
  {| chips := <[0%nat := w83781d_spec]> (replicate CHIPS_MAX zero_chip_name);
     chips_count := 1;
     do_sets := 0; do_unknown := 0; fahrenheit := 0;
     hide_adapter := 0; hide_unknown := 0 |}.

Definition start : work := {| cnt := 0; error := 0; trace := [] |}.

(** No chip detected; two chips detected; two chips, the first of which
    takes its writes only in part. *)
Definition quiet : libsensors := lib [] all_ok no_adapter.
Definition two_chips : libsensors := lib [lm78_isa; lm75_i2c] all_ok no_adapter.
Definition two_chips_partial : libsensors :=
  lib [lm78_isa; lm75_i2c] sets_partial no_adapter.

End Sample.

(** ** Further notions

    What the statements about the rest of [main] and about whole runs
    read off the options, the command line and a trace. *)

Section Further.

Context `{L : libsensors}.

(** The name [config_file_name] has when the option loop is left: the
    argument of the last [-c], or the name it had before. *)
Definition config_after (opts : list (ascii * string)) (dflt : string) : string :=
  foldl (fun cfg o => if Ascii.eqb (fst o) "c" then snd o else cfg) dflt opts.

(** The initial value of [config_file_name] in [main]. *)
Definition default_config : string :=
  ETCDIR +:+ "/" +:+ DEFAULT_CONFIG_FILE_NAME.

(** The globals the option loop leaves when no option ends the program. *)
Definition globals_after (opts : list (ascii * string)) : globals :=
  {| chips := chips reset_globals;
     chips_count := 0;
     do_sets := flag_after "s" opts 0;
     do_unknown := flag_after "u" opts 0;
     fahrenheit := flag_after "f" opts 0;
     hide_adapter := flag_after "A" opts 0;
     hide_unknown := flag_after "U" opts 0 |}.

(** The spec with the three wildcards that [main] writes to [chips[0]]
    of the initial array. *)
Definition any_chip_name : sensors_chip_name :=
  {| prefix := SENSORS_CHIP_NAME_PREFIX_ANY;
     bus := SENSORS_CHIP_NAME_BUS_ANY;
     addr := SENSORS_CHIP_NAME_ADDR_ANY;
     busname := None |}.

(** The specs the command line stands for. *)
Definition specs_of_args (args : list string) : list sensors_chip_name :=
  match args with
  | [] => [any_chip_name]
  | _ => (fun a => snd (sensors_parse_chip_name a)) <$> args
  end.

(** The chip names of a command line that [main] takes whole. *)
Definition args_accepted (args : list string) : Prop :=
  Forall well_formed args /\ (length args < CHIPS_MAX)%nat.

(** What closing the configuration file writes. *)
Definition close_events (cfg : string) : list event :=
  if fclose_succeeds cfg then []
  else [Stderr ("Could not close config file" +:+ nl); Perror cfg].

(** The flags of two sets of globals are the same. *)
Definition same_flags (g g' : globals) : Prop :=
  do_sets g' = do_sets g /\ do_unknown g' = do_unknown g
  /\ fahrenheit g' = fahrenheit g /\ hide_adapter g' = hide_adapter g
  /\ hide_unknown g' = hide_unknown g.

(** How many times [sensors_cleanup] is called. *)
Definition is_cleanup (ev : event) : bool :=
  match ev with SensorsCleanup => true | _ => false end.

Definition cleanups (t : list event) : nat := length (List.filter is_cleanup t).

(** The events of [main] outside the dispatcher and the final cleanup:
    lines on the two streams and the call of [sensors_init]. *)
Definition is_message (ev : event) : bool :=
  match ev with
  | Stdout _ | Stderr _ | Perror _ | GetoptError | SensorsInit _ => true
  | _ => false
  end.

Definition messages_only (t : list event) : Prop :=
  Forall (fun ev => is_message ev = true) t.

(** An [int] that is 0 or 1. *)
Definition is_flag (n : Z) : Prop := n = 0 \/ n = 1.

(** How many times the matcher is called. *)
Definition is_match_call (ev : event) : bool :=
  match ev with MatchChip _ _ => true | _ => false end.

Definition match_calls (t : list event) : nat :=
  length (List.filter is_match_call t).

(** How many times the matcher is called on the chip. *)
Definition is_match_call_on (chip : sensors_chip_name) (ev : event) : bool :=
  match ev with
  | MatchChip c _ => bool_decide (c = chip)
  | _ => false
  end.

Definition match_calls_on (chip : sensors_chip_name) (t : list event) : nat :=
  length (List.filter (is_match_call_on chip) t).

(** A run without its matcher calls: what is done to the chips and
    written. *)
Definition acts (t : list event) : list event :=
  List.filter (fun ev => negb (is_match_call ev)) t.

(** The lines the program writes to the standard error stream. *)
Definition stderr_lines (t : list event) : list string :=
  omap (fun ev => match ev with Stderr s => Some s | _ => None end) t.

(** Some spec of the run matches the chip. *)
Definition some_spec_matches (g : globals) (chip : sensors_chip_name) : Prop :=
  exists s, s ∈ spec_list g /\ sensors_match_chip chip s = true.

(** The write of the chip's [set] statements is refused by the kernel
    interface. *)
Definition sets_refused (chip : sensors_chip_name) : Prop :=
  sensors_do_chip_sets chip = - SENSORS_ERR_PROC
  /\ sensors_do_chip_sets chip <> 0.

(** The line [do_a_print] writes when the adapter of the chip's bus has no
    name. *)
Definition no_adapter_line (chip : sensors_chip_name) : string :=
  "Can't get adapter name for bus " +:+ pct_d (bus chip) +:+ nl.

(** The selected chips whose bus has no adapter name. *)
Definition nameless (g : globals) (chip : sensors_chip_name) : bool :=
  selected g chip && bool_decide (sensors_get_adapter_name (bus chip) = None).

(** The two texts of the branch of [main] taken when no chip was
    handled. *)
Definition no_sensors_found : string :=
  "No sensors found!" +:+ nl
    +:+ "Make sure you loaded all the kernel drivers you need." +:+ nl
    +:+ "Try sensors-detect to find out which these are." +:+ nl.

Definition specified_not_found : string :=
  "Specified sensor(s) not found!" +:+ nl.

End Further.

(** ** Further sample systems

    Systems on which the statements about the start of the program and
    about whole runs are exercised: the sample library with a parser that
    knows a second name, and with the behaviour of the configuration file
    and of [sensors_init] given. *)

Module Cases.

Local Open Scope string_scope.
Local Open Scope list_scope.
Local Open Scope Z_scope.

(** A parser that knows the all-wildcard name and one driver name with
    wildcards for bus and address. *)
Definition parse_chip_name (s : string) : Z * sensors_chip_name :=
  if String.eqb s "*" then (0, Sample.any_spec)
  else if String.eqb s "w83781d-*" then (0, Sample.w83781d_spec)
  else (-6, zero_chip_name).

(** The sample library with its surroundings given: whether the
    configuration file opens, what [sensors_init] returns, whether the file
    closes. *)
Definition lib (detected : list sensors_chip_name)
    (sets : sensors_chip_name -> Z) (adapter : Z -> option string)
    (opens : string -> bool) (init : string -> Z) (closes : string -> bool)
  : libsensors :=
  {| SENSORS_CHIP_NAME_BUS_ISA := -1;
     SENSORS_CHIP_NAME_BUS_PCI := -5;
     SENSORS_CHIP_NAME_BUS_DUMMY := -4;
     SENSORS_CHIP_NAME_BUS_ANY := -2;
     SENSORS_CHIP_NAME_ADDR_ANY := -1;
     SENSORS_ERR_PROC := 4;
     SENSORS_ERR_ACCESS_W := 9;
     ETCDIR := "/etc";
     LM_VERSION := "2.10.8";
     libsensors_version := "2.10.8";
     sensors_parse_chip_name := parse_chip_name;
     sensors_match_chip := Sample.match_chip;
     sensors_do_chip_sets := sets;
     sensors_get_adapter_name := adapter;
     sensors_strerror := fun _ => "Kernel interface error";
     sensors_init := init;
     detected_chips := detected;
     fopen_succeeds := opens;
     fclose_succeeds := closes |}.

Definition yes (s : string) : bool := true.
Definition no (s : string) : bool := false.
Definition init_ok (s : string) : Z := 0.
Definition init_fails (s : string) : Z := -8.

Definition chips2 : list sensors_chip_name := [Sample.lm78_isa; Sample.lm75_i2c].

(** Everything goes well; the file does not close; the file does not open;
    [sensors_init] fails; nothing is detected. *)
Definition fine : libsensors :=
  lib chips2 Sample.all_ok Sample.no_adapter yes init_ok yes.
Definition unclosed : libsensors :=
  lib chips2 Sample.all_ok Sample.no_adapter yes init_ok no.
Definition unopened : libsensors :=
  lib chips2 Sample.all_ok Sample.no_adapter no init_ok yes.
Definition uninitialised : libsensors :=
  lib chips2 Sample.all_ok Sample.no_adapter yes init_fails yes.
Definition empty : libsensors :=
  lib [] Sample.all_ok Sample.no_adapter yes init_ok yes.

(** The writes of the first chip are refused, those of the second
    succeed. *)
Definition sets_refused_first (chip : sensors_chip_name) : Z :=
  if addr chip =? 45 then -4 else 0.
Definition refusing : libsensors :=
  lib chips2 sets_refused_first Sample.no_adapter yes init_ok yes.

(** Only the ISA adapter has a name. *)
Definition isa_adapter (b : Z) : option string :=
  if b =? -1 then Some "ISA adapter" else None.
Definition half_named : libsensors :=
  lib chips2 Sample.all_ok isa_adapter yes init_ok yes.

(** The specs [w83781d-*] then [*], and [*] then [w83781d-*]. *)
Definition globals_specs (first second : sensors_chip_name) (sets_flag : Z)
  : globals :=
  {| chips := <[1%nat := second]>
                (<[0%nat := first]> (replicate CHIPS_MAX zero_chip_name));
     chips_count := 2;
     do_sets := sets_flag; do_unknown := 0; fahrenheit := 0;
     hide_adapter := 0; hide_unknown := 0 |}.

(** A second chip of the driver of the first, at another address. *)
Definition lm78_isa_290 : sensors_chip_name :=
  {| prefix := Some "lm78"; bus := -1; addr := 656; busname := None |}.

End Cases.

(** ** Strings, digits and conversions *)

Lemma append_cons c s t : String c s +:+ t = String c (s +:+ t).
Proof. reflexivity. Qed.

Lemma append_nil_r s : s +:+ EmptyString = s.
Proof. induction s as [|c s IH]; [done|]. by rewrite append_cons, IH. Qed.

Lemma append_assoc s1 s2 s3 : (s1 +:+ s2) +:+ s3 = s1 +:+ s2 +:+ s3.
Proof. induction s1 as [|c s1 IH]; [done|]. by rewrite !append_cons, IH. Qed.

Lemma length_append s1 s2 :
  String.length (s1 +:+ s2) = (String.length s1 + String.length s2)%nat.
Proof.
  induction s1 as [|c s1 IH]; [done|]. rewrite append_cons. simpl. by rewrite IH.
Qed.

Lemma substring_all n s :
  (String.length s <= n)%nat -> String.substring 0 n s = s.
Proof.
  revert n. induction s as [|c s IH]; intros n Hn.
  - by destruct n.
  - destruct n as [|n]; simpl in *; [lia|]. rewrite IH; [done|lia].
Qed.

Lemma length_substring n s :
  String.length (String.substring 0 n s) = (n `min` String.length s)%nat.
Proof.
  revert n. induction s as [|c s IH]; intros n.
  - by destruct n.
  - destruct n as [|n]; simpl; [done|]. by rewrite IH.
Qed.

Section Digits.

Variable digit : ascii -> option Z.
Variable base : Z.
Hypothesis base_ge_2 : 2 <= base.
Hypothesis digit_char_value :
  forall d, 0 <= d < base -> digit (digit_char d) = Some d.

Lemma value_from_app s1 s2 acc :
  value_from digit base acc (s1 +:+ s2) =
    value_from digit base acc s1 ≫= fun v => value_from digit base v s2.
Proof.
  revert acc. induction s1 as [|c s1 IH]; intros acc; [done|].
  rewrite append_cons. simpl. destruct (digit c); [apply IH|done].
Qed.

Lemma utoa_loop_app fuel : forall n acc,
  utoa_loop fuel base n acc = utoa_loop fuel base n EmptyString +:+ acc.
Proof.
  induction fuel as [|fuel IH]; intros n acc; [done|].
  cbn [utoa_loop]. destruct (n / base =? 0); [done|].
  rewrite IH. rewrite (IH _ (String _ EmptyString)).
  by rewrite append_assoc.
Qed.

Lemma utoa_loop_value fuel : forall n,
  0 <= n < base ^ Z.of_nat fuel ->
  value_from digit base 0 (utoa_loop fuel base n EmptyString) = Some n.
Proof.
  induction fuel as [|fuel IH]; intros n Hn.
  - simpl in Hn. simpl. f_equal. lia.
  - cbn [utoa_loop].
    pose proof (Z.mod_pos_bound n base ltac:(lia)) as Hmod.
    pose proof (Z.div_mod n base ltac:(lia)) as Hdiv.
    destruct (Z.eqb_spec (n / base) 0) as [H0|Hnz].
    + simpl. rewrite digit_char_value by done. simpl. f_equal. nia.
    + rewrite utoa_loop_app, value_from_app.
      rewrite IH.
      * simpl. rewrite digit_char_value by done. simpl. f_equal. lia.
      * split; [apply Z.div_pos; lia|].
        apply Z.div_lt_upper_bound; [lia|].
        rewrite Nat2Z.inj_succ, Z.pow_succ_r in Hn by lia. lia.
Qed.

Lemma utoa_loop_length fuel : forall n k,
  0 <= n < base ^ Z.of_nat k -> (1 <= k)%nat -> (1 <= fuel)%nat ->
  (1 <= String.length (utoa_loop fuel base n EmptyString) <= k)%nat.
Proof.
  induction fuel as [|fuel IH]; intros n k Hn Hk Hf; [lia|].
  cbn [utoa_loop].
  destruct (Z.eqb_spec (n / base) 0) as [H0|Hnz]; [simpl; lia|].
  rewrite utoa_loop_app. rewrite length_append. cbn [String.length].
  destruct k as [|[|k]]; [lia| |].
  - exfalso. apply Hnz. apply Z.div_small. simpl in Hn. lia.
  - destruct fuel as [|fuel]; [simpl; lia|].
    specialize (IH (n / base) (S k)).
    assert (0 <= n / base < base ^ Z.of_nat (S k)).
    { split; [apply Z.div_pos; lia|].
      apply Z.div_lt_upper_bound; [lia|].
      rewrite (Nat2Z.inj_succ (S k)), Z.pow_succ_r in Hn by lia. lia. }
    lia.
Qed.

End Digits.

Lemma utoa_loop_length_ge base fuel : forall n acc,
  (String.length acc <= String.length (utoa_loop fuel base n acc))%nat.
Proof.
  induction fuel as [|fuel IH]; intros n acc; [done|].
  cbn [utoa_loop]. destruct (n / base =? 0); [simpl; lia|].
  specialize (IH (n / base) (String (digit_char (n mod base)) acc)).
  simpl in IH. lia.
Qed.

Lemma utoa_loop_nonempty base fuel n acc :
  utoa_loop (S fuel) base n acc <> EmptyString.
Proof.
  cbn [utoa_loop]. destruct (n / base =? 0); [done|].
  intros He.
  pose proof (utoa_loop_length_ge base fuel (n / base)
                (String (digit_char (n mod base)) acc)) as Hl.
  rewrite He in Hl. simpl in Hl. lia.
Qed.

Lemma utoa_nonempty base n : utoa base n <> EmptyString.
Proof. apply utoa_loop_nonempty. Qed.

Lemma hex_digit_char d : 0 <= d < 16 -> hex_digit_value (digit_char d) = Some d.
Proof.
  intros Hd.
  assert (d = 0 \/ d = 1 \/ d = 2 \/ d = 3 \/ d = 4 \/ d = 5 \/ d = 6 \/ d = 7
          \/ d = 8 \/ d = 9 \/ d = 10 \/ d = 11 \/ d = 12 \/ d = 13 \/ d = 14
          \/ d = 15) as H by lia.
  repeat destruct H as [->|H]; try reflexivity. by subst.
Qed.

Lemma dec_digit_char d : 0 <= d < 10 -> dec_digit_value (digit_char d) = Some d.
Proof.
  intros Hd.
  assert (d = 0 \/ d = 1 \/ d = 2 \/ d = 3 \/ d = 4 \/ d = 5 \/ d = 6 \/ d = 7
          \/ d = 8 \/ d = 9) as H by lia.
  repeat destruct H as [->|H]; try reflexivity. by subst.
Qed.

Lemma length_fill c k : String.length (fill c k) = k.
Proof. induction k as [|k IH]; [done|]. simpl. by rewrite IH. Qed.

(** Zeros in front do not change the value. *)
Lemma value_from_fill_zero digit base k s :
  digit "0"%char = Some 0 ->
  value_from digit base 0 (fill "0" k +:+ s) = value_from digit base 0 s.
Proof.
  intros H0. induction k as [|k IH]; [done|].
  cbn [fill]. rewrite append_cons. cbn [value_from]. rewrite H0.
  by rewrite Z.mul_0_r.
Qed.

Lemma length_pad c w s :
  String.length (pad c w s) = (w `max` String.length s)%nat.
Proof. unfold pad. rewrite length_append, length_fill. lia. Qed.

(** What [%0wx] writes: a numeral of lowercase hexadecimal digits that
    denotes the argument read as unsigned, at least [w] characters long and
    exactly [w] when the value has no more than [w] digits. *)
Lemma pct_x_zero_spec w n :
  (1 <= w <= 8)%nat ->
  hex_value (pct_x true w n) = Some (to_unsigned n)
  /\ (w <= String.length (pct_x true w n))%nat
  /\ (0 <= n < 16 ^ Z.of_nat w -> String.length (pct_x true w n) = w).
Proof.
  intros Hw. unfold pct_x.
  assert (Hu : 0 <= to_unsigned n < 16 ^ Z.of_nat 32).
  { unfold to_unsigned. pose proof (Z.mod_pos_bound n (2 ^ 32)). 
    change (16 ^ Z.of_nat 32) with (2 ^ 32 * 2 ^ 96). lia. }
  pose proof (length_pad "0" w (utoa 16 (to_unsigned n))) as Hlen.
  split_and!.
  - assert (value_from hex_digit_value 16 0 (pad "0" w (utoa 16 (to_unsigned n)))
            = Some (to_unsigned n)) as Hv.
    { unfold pad. rewrite value_from_fill_zero by done.
      apply utoa_loop_value; [lia|apply hex_digit_char|done]. }
    unfold hex_value. destruct (pad _ w _) eqn:He; [|done].
    simpl in Hlen. lia.
  - lia.
  - intros Hn. rewrite Hlen.
    assert (to_unsigned n = n) as ->.
    { unfold to_unsigned. apply Z.mod_small. split; [lia|].
      assert (16 ^ Z.of_nat w <= 16 ^ 8) by (apply Z.pow_le_mono_r; lia). lia. }
    pose proof (utoa_loop_length 16 ltac:(lia) 32 n w Hn ltac:(lia) ltac:(lia)).
    unfold utoa. lia.
Qed.

Lemma pct_d_spec n : is_int n -> dec_value (pct_d n) = Some n.
Proof.
  unfold is_int, pct_d. intros Hn.
  assert (Hval : forall m, 0 <= m <= 2 ^ 31 ->
            value_from dec_digit_value 10 0 (utoa 10 m) = Some m).
  { intros m Hm. apply utoa_loop_value; [lia|apply dec_digit_char|].
    change (10 ^ Z.of_nat 32) with (2 ^ 31 * 46566128730773925781250). lia. }
  pose proof (utoa_nonempty 10) as Hne.
  destruct (Z.ltb_spec n 0) as [Hneg|Hpos].
  - unfold dec_value. cbn [Ascii.eqb Bool.eqb].
    specialize (Hne (- n)). destruct (utoa 10 (- n)) eqn:He; [done|].
    rewrite <- He, Hval by lia. simpl. f_equal. lia.
  - specialize (Hne n). specialize (Hval n ltac:(lia)).
    unfold dec_value. destruct (utoa 10 n) as [|c rest] eqn:He; [done|].
    destruct (Ascii.eqb_spec c "-") as [->|_]; [done|done].
Qed.

(** ** Numerals without leading zeros

    What pins a numeral down besides its value: digits in range, one
    character for each digit, and no zero in front. *)

Section Numerals.

Variable digit : ascii -> option Z.
Variable base : Z.
Hypothesis base_ge_2 : 2 <= base.
Hypothesis digit_char_value :
  forall d, 0 <= d < base -> digit (digit_char d) = Some d.
Hypothesis digit_range : forall c d, digit c = Some d -> 0 <= d < base.
Hypothesis digit_inj :
  forall c c' d, digit c = Some d -> digit c' = Some d -> c = c'.
Hypothesis digit_zero : digit "0"%char = Some 0.

Lemma value_from_bounds s : forall acc v,
  0 <= acc -> value_from digit base acc s = Some v ->
  acc * base ^ Z.of_nat (String.length s) <= v
    < (acc + 1) * base ^ Z.of_nat (String.length s).
Proof.
  induction s as [|c s IH]; intros acc v Hacc H.
  - injection H as <-. simpl. lia.
  - cbn [value_from] in H. destruct (digit c) as [d|] eqn:Hd; [|done].
    apply digit_range in Hd. apply IH in H; [|nia].
    cbn [String.length]. rewrite Nat2Z.inj_succ, Z.pow_succ_r by lia.
    assert (0 < base ^ Z.of_nat (String.length s)) by (apply Z.pow_pos_nonneg; lia).
    nia.
Qed.

Lemma value_from_inj s : forall s' acc v,
  0 <= acc -> String.length s = String.length s' ->
  value_from digit base acc s = Some v ->
  value_from digit base acc s' = Some v -> s = s'.
Proof.
  induction s as [|c s IH]; intros [|c' s'] acc v Hacc Hlen H H'; try done.
  cbn [value_from] in H, H'. cbn [String.length] in Hlen.
  destruct (digit c) as [d|] eqn:Hd; [|done].
  destruct (digit c') as [d'|] eqn:Hd'; [|done].
  pose proof (digit_range _ _ Hd). pose proof (digit_range _ _ Hd').
  assert (0 <= base * acc + d) as Hnn by nia.
  assert (0 <= base * acc + d') as Hnn' by nia.
  pose proof (value_from_bounds _ _ _ Hnn H) as Hb.
  pose proof (value_from_bounds _ _ _ Hnn' H') as Hb'.
  assert (String.length s = String.length s') as Hl by lia.
  rewrite <- Hl in Hb'.
  assert (0 < base ^ Z.of_nat (String.length s)) by (apply Z.pow_pos_nonneg; lia).
  assert (d = d') as <- by nia.
  f_equal; [by eapply digit_inj|]. eapply IH; [|done|done..]. nia.
Qed.

(** A numeral without leading zero has the length its value asks for. *)
Lemma no_leading_zero_bounds s v :
  s <> EmptyString -> no_leading_zero s ->
  value_from digit base 0 s = Some v ->
  0 <= v < base ^ Z.of_nat (String.length s)
  /\ ((2 <= String.length s)%nat -> base ^ Z.of_nat (String.length s - 1) <= v).
Proof.
  intros Hne Hnz H.
  pose proof (value_from_bounds _ _ _ (Z.le_refl 0) H) as Hb.
  split; [lia|]. intros Hlen.
  destruct s as [|c r]; [done|].
  assert (c <> "0"%char) as Hc.
  { destruct r; [simpl in Hlen; lia|done]. }
  clear Hnz Hb. cbn [value_from] in H.
  destruct (digit c) as [d|] eqn:Hd; [|done].
  assert (d <> 0) as Hd0.
  { intros ->. apply Hc. by eapply digit_inj. }
  pose proof (digit_range _ _ Hd).
  apply value_from_bounds in H; [|lia].
  replace (String.length (String c r) - 1)%nat
    with (String.length r) by (simpl; lia).
  assert (0 < base ^ Z.of_nat (String.length r))
    by (apply Z.pow_pos_nonneg; lia).
  nia.
Qed.

Lemma no_leading_zero_length s s' v :
  s <> EmptyString -> s' <> EmptyString ->
  no_leading_zero s -> no_leading_zero s' ->
  value_from digit base 0 s = Some v -> value_from digit base 0 s' = Some v ->
  String.length s = String.length s'.
Proof.
  assert (Hlt : forall s s' v, s <> EmptyString -> s' <> EmptyString ->
            no_leading_zero s -> no_leading_zero s' ->
            value_from digit base 0 s = Some v ->
            value_from digit base 0 s' = Some v ->
            ~ (String.length s < String.length s')%nat).
  { clear s s' v. intros s s' v Hne Hne' Hnz Hnz' H H' Hlt.
    destruct (no_leading_zero_bounds s v Hne Hnz H) as [Hb _].
    destruct (no_leading_zero_bounds s' v Hne' Hnz' H') as [_ Hb'].
    assert (1 <= String.length s)%nat by (destruct s; [done|simpl; lia]).
    specialize (Hb' ltac:(lia)).
    assert (base ^ Z.of_nat (String.length s)
            <= base ^ Z.of_nat (String.length s' - 1))
      by (apply Z.pow_le_mono_r; lia).
    lia. }
  intros Hne Hne' Hnz Hnz' H H'.
  pose proof (Hlt s s' v Hne Hne' Hnz Hnz' H H').
  pose proof (Hlt s' s v Hne' Hne Hnz' Hnz H' H). lia.
Qed.

Lemma no_leading_zero_unique s s' v :
  s <> EmptyString -> s' <> EmptyString ->
  no_leading_zero s -> no_leading_zero s' ->
  value_from digit base 0 s = Some v -> value_from digit base 0 s' = Some v ->
  s = s'.
Proof.
  intros Hne Hne' Hnz Hnz' H H'.
  eapply value_from_inj; [|by eapply no_leading_zero_length|done..]. lia.
Qed.

(** The digit loop starts with a digit other than zero, unless the number
    is zero. *)
Lemma utoa_loop_head fuel : forall n acc,
  0 < n < base ^ Z.of_nat fuel ->
  exists d rest, 0 < d < base
    /\ utoa_loop fuel base n acc = String (digit_char d) rest.
Proof.
  induction fuel as [|fuel IH]; intros n acc Hn; [simpl in Hn; lia|].
  cbn [utoa_loop].
  pose proof (Z.div_mod n base ltac:(lia)) as Hdiv.
  pose proof (Z.mod_pos_bound n base ltac:(lia)) as Hmod.
  destruct (Z.eqb_spec (n / base) 0) as [H0|Hnz].
  - exists (n mod base), acc. split; [nia|done].
  - apply IH. split.
    + assert (0 <= n / base) by (apply Z.div_pos; lia). lia.
    + apply Z.div_lt_upper_bound; [lia|].
      rewrite Nat2Z.inj_succ, Z.pow_succ_r in Hn by lia. lia.
Qed.

Lemma utoa_loop_no_leading_zero fuel n :
  0 <= n < base ^ Z.of_nat fuel ->
  no_leading_zero (utoa_loop fuel base n EmptyString).
Proof.
  intros Hn. destruct (decide (n = 0)) as [->|Hnz].
  - destruct fuel as [|fuel]; [done|]. cbn [utoa_loop].
    rewrite Z.div_0_l by lia. done.
  - destruct (utoa_loop_head fuel n EmptyString ltac:(lia))
      as (d & rest & Hd & ->).
    destruct rest; [done|]. cbn [no_leading_zero]. intros H0.
    pose proof (digit_char_value d ltac:(lia)) as Hv.
    rewrite H0, digit_zero in Hv. injection Hv as <-. lia.
Qed.

End Numerals.

Lemma hex_digit_range c d : hex_digit_value c = Some d -> 0 <= d < 16.
Proof.
  unfold hex_digit_value.
  repeat match goal with
         | |- context [?a <=? ?b] => destruct (Z.leb_spec a b)
         end; cbn; intros Hc; try discriminate Hc; injection Hc; lia.
Qed.

Lemma dec_digit_range c d : dec_digit_value c = Some d -> 0 <= d < 10.
Proof.
  unfold dec_digit_value.
  repeat match goal with
         | |- context [?a <=? ?b] => destruct (Z.leb_spec a b)
         end; cbn; intros Hc; try discriminate Hc; injection Hc; lia.
Qed.

Lemma nat_of_ascii_inj c c' : nat_of_ascii c = nat_of_ascii c' -> c = c'.
Proof.
  intros H. rewrite <- (ascii_nat_embedding c), <- (ascii_nat_embedding c').
  by rewrite H.
Qed.

Lemma hex_digit_inj c c' d :
  hex_digit_value c = Some d -> hex_digit_value c' = Some d -> c = c'.
Proof.
  intros H H'. apply nat_of_ascii_inj. revert H H'. unfold hex_digit_value.
  repeat match goal with
         | |- context [?a <=? ?b] => destruct (Z.leb_spec a b)
         end; cbn; intros Hc Hc'; try discriminate Hc; try discriminate Hc';
    injection Hc; injection Hc'; lia.
Qed.

Lemma dec_digit_inj c c' d :
  dec_digit_value c = Some d -> dec_digit_value c' = Some d -> c = c'.
Proof.
  intros H H'. apply nat_of_ascii_inj. revert H H'. unfold dec_digit_value.
  repeat match goal with
         | |- context [?a <=? ?b] => destruct (Z.leb_spec a b)
         end; cbn; intros Hc Hc'; try discriminate Hc; try discriminate Hc';
    injection Hc; injection Hc'; lia.
Qed.

Lemma hex_value_from s v :
  hex_value s = Some v ->
  s <> EmptyString /\ value_from hex_digit_value 16 0 s = Some v.
Proof. destruct s; [done|]. by intros H. Qed.

(** The properties of a zero-padded hexadecimal numeral leave one
    string. *)
Lemma hex_numeral_unique w v s s' :
  is_hex_numeral w v s -> is_hex_numeral w v s' -> s = s'.
Proof.
  assert (Hshort : forall s s',
            is_hex_numeral w v s -> is_hex_numeral w v s' ->
            String.length s = w -> String.length s' = w).
  { clear s s'. intros s s' (Hv & Hw & _) (Hv' & Hw' & Hnz') Hlen.
    apply hex_value_from in Hv as [Hne Hv], Hv' as [Hne' Hv'].
    destruct (decide (String.length s' = w)) as [|Hlong]; [done|exfalso].
    specialize (Hnz' ltac:(lia)).
    pose proof (value_from_bounds hex_digit_value 16 ltac:(lia)
                  hex_digit_range s 0 v (Z.le_refl 0) Hv) as Hb.
    destruct (no_leading_zero_bounds hex_digit_value 16 ltac:(lia)
                hex_digit_range hex_digit_inj eq_refl s' v Hne' Hnz' Hv') as [_ Hb'].
    assert (1 <= String.length s)%nat by (destruct s; [done|simpl; lia]).
    specialize (Hb' ltac:(lia)).
    assert (16 ^ Z.of_nat (String.length s)
            <= 16 ^ Z.of_nat (String.length s' - 1))
      by (apply Z.pow_le_mono_r; lia).
    lia. }
  intros H H'.
  pose proof (Hshort s s' H H') as Hss'. pose proof (Hshort s' s H' H) as Hs's.
  destruct H as (Hv & Hw & Hnz), H' as (Hv' & Hw' & Hnz').
  apply hex_value_from in Hv as [Hne Hv], Hv' as [Hne' Hv'].
  destruct (decide (String.length s = w)) as [Hlen|Hlong].
  - eapply (value_from_inj hex_digit_value 16 ltac:(lia) hex_digit_range
              hex_digit_inj); [|by rewrite Hss'|done..]. lia.
  - assert (String.length s' <> w) by (intros ?; apply Hlong; by apply Hs's).
    eapply (no_leading_zero_unique hex_digit_value 16 ltac:(lia)
              hex_digit_range hex_digit_inj eq_refl); [done|done| | |done..].
    + apply Hnz. lia.
    + apply Hnz'. lia.
Qed.

Lemma value_from_nonneg digit base s : forall acc v,
  (forall c d, digit c = Some d -> 0 <= d) -> 0 <= base -> 0 <= acc ->
  value_from digit base acc s = Some v -> 0 <= v.
Proof.
  induction s as [|c s IH]; intros acc v Hd Hb Hacc H.
  - injection H as <-. done.
  - cbn [value_from] in H. destruct (digit c) as [d|] eqn:Hc; [|done].
    apply Hd in Hc. eapply IH; [done|done| |done]. nia.
Qed.

(** What [dec_value] reads after the sign. *)
Lemma dec_value_digits c rest n :
  dec_value (String c rest) = Some n ->
  if Ascii.eqb c "-"
  then rest <> EmptyString
       /\ value_from dec_digit_value 10 0 rest = Some (- n) /\ n <= 0
  else value_from dec_digit_value 10 0 (String c rest) = Some n /\ 0 <= n.
Proof.
  unfold dec_value. destruct (Ascii.eqb c "-").
  - destruct rest as [|c2 rest]; [done|].
    destruct (value_from _ _ _ _) as [m|] eqn:Hm; [|done].
    cbn. intros [= <-]. split; [done|]. rewrite Z.opp_involutive.
    split; [done|].
    apply value_from_nonneg in Hm; [lia| |lia|lia].
    intros ? ? ?%dec_digit_range. lia.
  - intros H. split; [done|].
    apply value_from_nonneg in H; [lia| |lia|lia].
    intros ? ? ?%dec_digit_range. lia.
Qed.

(** The properties of a decimal numeral leave one string. *)
Lemma dec_numeral_unique n s s' :
  is_dec_numeral n s -> is_dec_numeral n s' -> s = s'.
Proof.
  intros [Hv Hc] [Hv' Hc'].
  destruct s as [|c rest]; [done|]. destruct s' as [|c' rest']; [done|].
  apply dec_value_digits in Hv, Hv'.
  destruct (Ascii.eqb_spec c "-") as [->|Hm];
    destruct (Ascii.eqb_spec c' "-") as [->|Hm'].
  - destruct Hv as (Hne & Hv & _), Hv' as (Hne' & Hv' & _).
    f_equal.
    eapply (no_leading_zero_unique dec_digit_value 10 ltac:(lia)
              dec_digit_range dec_digit_inj eq_refl); [done|done| | |done..].
    + apply Hc.
    + apply Hc'.
  - lia.
  - lia.
  - destruct Hv as [Hv _], Hv' as [Hv' _].
    by eapply (no_leading_zero_unique dec_digit_value 10 ltac:(lia)
                 dec_digit_range dec_digit_inj eq_refl).
Qed.

(** [%0wx] writes the zero-padded numeral. *)
Lemma pct_x_is_hex_numeral w n :
  (1 <= w <= 8)%nat -> is_hex_numeral w (to_unsigned n) (pct_x true w n).
Proof.
  intros Hw. destruct (pct_x_zero_spec w n Hw) as (Hv & Hlen & _).
  split; [done|]. split; [done|].
  unfold pct_x in *. rewrite length_pad. intros Hlong. unfold pad.
  replace (w - String.length (utoa 16 (to_unsigned n)))%nat with 0%nat by lia.
  cbn [fill]. change (EmptyString +:+ ?s) with s.
  apply (utoa_loop_no_leading_zero hex_digit_value 16); [lia| | |].
  - apply hex_digit_char.
  - done.
  - unfold to_unsigned. pose proof (Z.mod_pos_bound n (2 ^ 32)).
    change (16 ^ Z.of_nat 32) with (2 ^ 32 * 2 ^ 96). lia.
Qed.

(** [%d] writes the decimal numeral. *)
Lemma pct_d_is_dec_numeral n : is_int n -> is_dec_numeral n (pct_d n).
Proof.
  intros Hn. split; [by apply pct_d_spec|].
  assert (Hnz : forall m, 0 <= m <= 2 ^ 31 -> no_leading_zero (utoa 10 m)).
  { intros m Hm.
    apply (utoa_loop_no_leading_zero dec_digit_value 10); [lia| | |].
    - apply dec_digit_char.
    - done.
    - change (10 ^ Z.of_nat 32) with (2 ^ 31 * 46566128730773925781250). lia. }
  unfold is_int in Hn. unfold pct_d.
  destruct (Z.ltb_spec n 0) as [Hneg|Hpos].
  - cbn [Ascii.eqb Bool.eqb]. split; [done|]. apply Hnz. lia.
  - pose proof (utoa_nonempty 10 n) as Hne.
    destruct (utoa 10 n) as [|c rest] eqn:He; [done|].
    destruct (Ascii.eqb_spec c "-") as [->|_]; [|rewrite <- He; apply Hnz; lia].
    exfalso.
    pose proof (utoa_loop_value dec_digit_value 10 ltac:(lia) dec_digit_char
                  32 n) as Hval.
    unfold utoa in He. rewrite He in Hval. cbn in Hval.
    assert (0 <= n < 10 ^ Z.of_nat 32) as Hr.
    { change (10 ^ Z.of_nat 32) with (2 ^ 31 * 46566128730773925781250). lia. }
    by specialize (Hval Hr).
Qed.

(** The four formats of [sprintf_chip_name], conversion by conversion. *)
Lemma sprintf_isa s a :
  sprintf "%s-isa-%04x" [ArgS s; ArgI a] = pct_s s +:+ "-isa-" +:+ pct_x true 4 a.
Proof.
  unfold sprintf. rewrite <- (append_nil_r (pct_x true 4 a)). reflexivity.
Qed.

Lemma sprintf_pci s a :
  sprintf "%s-pci-%04x" [ArgS s; ArgI a] = pct_s s +:+ "-pci-" +:+ pct_x true 4 a.
Proof.
  unfold sprintf. rewrite <- (append_nil_r (pct_x true 4 a)). reflexivity.
Qed.

Lemma sprintf_dummy s b a :
  sprintf "%s-%s-%04x" [ArgS s; ArgS b; ArgI a]
  = pct_s s +:+ "-" +:+ pct_s b +:+ "-" +:+ pct_x true 4 a.
Proof.
  unfold sprintf. rewrite <- (append_nil_r (pct_x true 4 a)). reflexivity.
Qed.

Lemma sprintf_i2c s n a :
  sprintf "%s-i2c-%d-%02x" [ArgS s; ArgI n; ArgI a]
  = pct_s s +:+ "-i2c-" +:+ pct_d n +:+ "-" +:+ pct_x true 2 a.
Proof.
  unfold sprintf. rewrite <- (append_nil_r (pct_x true 2 a)). reflexivity.
Qed.

Section Formatter.

Context `{L : libsensors}.

(** C3, amended.  For every chip whose prefix is a string, the buffer holds
    the first 199 characters ([BUF_SIZE - 1]) of: the prefix, [-isa-] and
    the address on the ISA bus; the prefix, [-pci-] and the address on the
    PCI bus; the prefix, the bus name and the address, joined by dashes, on
    the dummy bus; the prefix, [-i2c-], the bus number, a dash and the
    address on any other bus.  The address is the numeral in lowercase
    hexadecimal digits of the address read as unsigned, padded with zeros
    to four digits (two on the last kind of bus): it has at least that
    many digits, exactly that many when the address needs no more, and no
    zero in front when it has more.  The bus number is the decimal numeral
    of the bus: a minus sign exactly when it is negative, then its digits
    with no zero in front.  Each of the two descriptions leaves one string
    only.  A rendering shorter than the buffer is kept whole, and what is
    kept is always shorter than the buffer.  The two chips of the examples
    are rendered as [lm78-isa-002d] and [lm75-i2c-0-48]. *)
Theorem sprintf_chip_name_rendering name :
  (forall p, prefix name = Some p ->
     exists h4 h2 : string,
       (is_hex_numeral 4 (to_unsigned (addr name)) h4
        /\ (0 <= addr name < 16 ^ 4 -> String.length h4 = 4%nat))
       /\ (is_hex_numeral 2 (to_unsigned (addr name)) h2
           /\ (0 <= addr name < 16 ^ 2 -> String.length h2 = 2%nat))
       /\ (bus name = SENSORS_CHIP_NAME_BUS_ISA ->
           sprintf_chip_name name = cut (p +:+ "-isa-" +:+ h4))
       /\ (bus name <> SENSORS_CHIP_NAME_BUS_ISA ->
           bus name = SENSORS_CHIP_NAME_BUS_PCI ->
           sprintf_chip_name name = cut (p +:+ "-pci-" +:+ h4))
       /\ (bus name <> SENSORS_CHIP_NAME_BUS_ISA ->
           bus name <> SENSORS_CHIP_NAME_BUS_PCI ->
           bus name = SENSORS_CHIP_NAME_BUS_DUMMY ->
           forall b, busname name = Some b ->
             sprintf_chip_name name = cut (p +:+ "-" +:+ b +:+ "-" +:+ h4))
       /\ (bus name <> SENSORS_CHIP_NAME_BUS_ISA ->
           bus name <> SENSORS_CHIP_NAME_BUS_PCI ->
           bus name <> SENSORS_CHIP_NAME_BUS_DUMMY ->
           exists d,
             (is_int (bus name) -> is_dec_numeral (bus name) d)
             /\ sprintf_chip_name name
                = cut (p +:+ "-i2c-" +:+ d +:+ "-" +:+ h2)))
  /\ (forall w v s s',
        is_hex_numeral w v s -> is_hex_numeral w v s' -> s = s')
  /\ (forall n s s', is_dec_numeral n s -> is_dec_numeral n s' -> s = s')
  /\ (forall s, (String.length s < BUF_SIZE)%nat -> cut s = s)
  /\ (forall s, (String.length (cut s) < BUF_SIZE)%nat)
  /\ (forall b,
        sprintf_chip_name
          {| prefix := Some "lm78"%string; bus := SENSORS_CHIP_NAME_BUS_ISA;
             addr := 45; busname := b |} = "lm78-isa-002d"%string)
  /\ (SENSORS_CHIP_NAME_BUS_ISA <> 0 -> SENSORS_CHIP_NAME_BUS_PCI <> 0 ->
      SENSORS_CHIP_NAME_BUS_DUMMY <> 0 ->
      forall b,
        sprintf_chip_name
          {| prefix := Some "lm75"%string; bus := 0; addr := 72; busname := b |}
        = "lm75-i2c-0-48"%string).
Proof.
  split_and!.
  - intros p Hp.
    exists (pct_x true 4 (addr name)), (pct_x true 2 (addr name)).
    assert (H4 : (1 <= 4 <= 8)%nat) by lia.
    assert (H2 : (1 <= 2 <= 8)%nat) by lia.
    split.
    { split; [by apply pct_x_is_hex_numeral|].
      apply (pct_x_zero_spec 4 (addr name) H4). }
    split.
    { split; [by apply pct_x_is_hex_numeral|].
      apply (pct_x_zero_spec 2 (addr name) H2). }
    unfold sprintf_chip_name, snprintf, cut. rewrite Hp.
    split_and!.
    + intros Hisa. apply Z.eqb_eq in Hisa. by rewrite Hisa, sprintf_isa.
    + intros Hisa Hpci. apply Z.eqb_neq in Hisa. apply Z.eqb_eq in Hpci.
      by rewrite Hisa, Hpci, sprintf_pci.
    + intros Hisa Hpci Hdummy b Hb.
      apply Z.eqb_neq in Hisa, Hpci. apply Z.eqb_eq in Hdummy.
      by rewrite Hisa, Hpci, Hdummy, Hb, sprintf_dummy.
    + intros Hisa Hpci Hdummy. apply Z.eqb_neq in Hisa, Hpci, Hdummy.
      rewrite Hisa, Hpci, Hdummy.
      exists (pct_d (bus name)). split; [apply pct_d_is_dec_numeral|].
      by rewrite sprintf_i2c.
  - apply hex_numeral_unique.
  - apply dec_numeral_unique.
  - intros s Hs. apply substring_all. unfold BUF_SIZE in *. lia.
  - intros s. unfold cut. rewrite length_substring. unfold BUF_SIZE. lia.
  - intros b. unfold sprintf_chip_name. cbn [bus prefix addr].
    rewrite Z.eqb_refl. reflexivity.
  - intros Hisa Hpci Hdummy b. unfold sprintf_chip_name. cbn [bus prefix addr].
    rewrite (proj2 (Z.eqb_neq 0 _)) by done.
    rewrite (proj2 (Z.eqb_neq 0 _)) by done.
    rewrite (proj2 (Z.eqb_neq 0 _)) by done.
    reflexivity.
Qed.
End Formatter.

(** ** The dispatcher *)

Section Dispatcher.

Context `{L : libsensors}.

Lemma add_trace_nil w : add_trace w [] = w.
Proof. destruct w; unfold add_trace; simpl. by rewrite app_nil_r. Qed.

Lemma add_trace_app w evs evs' :
  add_trace (add_trace w evs) evs' = add_trace w (evs ++ evs').
Proof. unfold add_trace; simpl. by rewrite app_assoc. Qed.

Lemma scan_chips_step g chip i w :
  scan_chips g chip i w =
    if decide (i < chips_count g)%nat then
      if sensors_match_chip chip (chips g !!! i)
      then scan_chips g chip (S (chips_count g))
             (dispatch g chip (log (MatchChip chip i) w))
      else scan_chips g chip (S i) (log (MatchChip chip i) w)
    else w.
Proof.
  rewrite scan_chips_equation_1. 
  destruct (lt_dec i (chips_count g)); destruct (decide _); try lia; reflexivity.
Qed.

Lemma scan_chips_stop g chip i w :
  (chips_count g <= i)%nat -> scan_chips g chip i w = w.
Proof. intros Hi. rewrite scan_chips_step. case_decide; [lia | done]. Qed.

Lemma log_add_trace ev w : log ev w = add_trace w [ev].
Proof. reflexivity. Qed.

(** The inner loop entered at [i] with [m] specs left. *)
Lemma scan_chips_find g chip m : forall i w,
  (i + m = chips_count g)%nat ->
  scan_chips g chip i w =
    match list_find (fun s => sensors_match_chip chip s = true)
            ((fun j => chips g !!! j) <$> seq i m) with
    | Some (j, _) => dispatch g chip (add_trace w (match_events chip i (S j)))
    | None => add_trace w (match_events chip i m)
    end.
Proof.
  induction m as [|m IH]; intros i w Him.
  - rewrite scan_chips_stop by lia. simpl. by rewrite add_trace_nil.
  - rewrite scan_chips_step. case_decide; [|lia].
    cbn [seq fmap list_fmap list_find].
    destruct (sensors_match_chip chip (chips g !!! i)) eqn:Hm.
    + rewrite decide_True by done. rewrite scan_chips_stop by lia.
      reflexivity.
    + rewrite decide_False by done.
      rewrite IH by lia. rewrite log_add_trace.
      destruct (list_find _ _) as [[j s]|]; simpl.
      * by rewrite add_trace_app.
      * by rewrite add_trace_app.
Qed.

Lemma scan_chips_first_match g chip w :
  scan_chips g chip 0 w =
    match first_match g chip with
    | Some k => dispatch g chip (add_trace w (match_events chip 0 (S k)))
    | None => add_trace w (match_events chip 0 (chips_count g))
    end.
Proof.
  rewrite (scan_chips_find g chip (chips_count g)) by lia.
  unfold first_match, spec_list.
  by destruct (list_find _ _) as [[j s]|].
Qed.

Lemma dispatch_action g chip w :
  dispatch g chip w =
    {| cnt := S (cnt w);
       error := if snd (action g chip) then 1 else error w;
       trace := trace w ++ fst (action g chip) |}.
Proof.
  unfold dispatch, action. destruct (truthy (do_sets g)); [|done].
  by destruct (do_a_set chip) as [evs r].
Qed.

(** One detected chip. *)
Lemma scan_chips_spec g chip w :
  scan_chips g chip 0 w =
    {| cnt := if selected g chip then S (cnt w) else cnt w;
       error := if selected g chip && snd (action g chip) then 1 else error w;
       trace := trace w ++ chip_events g chip |}.
Proof.
  rewrite scan_chips_first_match. unfold selected, chip_events.
  destruct (first_match g chip) as [k|].
  - rewrite dispatch_action. rewrite bool_decide_eq_true_2 by eauto.
    cbn [cnt error trace add_trace]. by rewrite <- app_assoc.
  - rewrite bool_decide_eq_false_2 by (by intros [? ?]). reflexivity.
Qed.

Lemma enumerate_step g chip_nr w :
  enumerate g chip_nr w =
    match detected_chips !! chip_nr with
    | Some chip => enumerate g (S chip_nr) (scan_chips g chip 0 w)
    | None => w
    end.
Proof.
  rewrite enumerate_equation_1.
  unfold enumerate_unfold_clause_1, inspect, sensors_get_detected_chips.
  by destruct (detected_chips !! chip_nr).
Qed.

Lemma enumerate_foldl g : forall l chip_nr w,
  drop chip_nr detected_chips = l ->
  enumerate g chip_nr w = foldl (fun w chip => scan_chips g chip 0 w) w l.
Proof.
  induction l as [|chip l IH]; intros chip_nr w Hl.
  - rewrite enumerate_step.
    apply drop_nil_inv in Hl. by rewrite lookup_ge_None_2.
  - rewrite enumerate_step.
    assert (detected_chips !! chip_nr = Some chip) as Hc.
    { rewrite <- (Nat.add_0_r chip_nr), <- lookup_drop, Hl. done. }
    rewrite Hc. simpl. apply IH.
    rewrite (drop_S _ _ _ Hc) in Hl. congruence.
Qed.

Lemma do_the_real_work_foldl g :
  do_the_real_work g =
    foldl (fun w chip => scan_chips g chip 0 w)
      {| cnt := 0; error := 0; trace := [] |} detected_chips.
Proof. apply enumerate_foldl. apply drop_0. Qed.

(** The outer loop over a list of chips. *)
Lemma foldl_scan_chips_spec g l : forall w,
  foldl (fun w chip => scan_chips g chip 0 w) w l =
    {| cnt := cnt w + length (List.filter (selected g) l);
       error := if existsb (fun chip => selected g chip && snd (action g chip)) l
                then 1 else error w;
       trace := trace w ++ concat (chip_events g <$> l) |}.
Proof.
  induction l as [|chip l IH]; intros w.
  - destruct w; simpl. f_equal; [lia | by rewrite app_nil_r].
  - cbn [foldl]. rewrite IH, scan_chips_spec. cbn [cnt error trace].
    cbn [List.filter existsb fmap list_fmap concat].
    destruct (selected g chip); cbn [andb orb length].
    + f_equal; [lia | | by rewrite app_assoc].
      by destruct (snd (action g chip)), (existsb _ l).
    + f_equal; [by rewrite app_assoc].
Qed.

Lemma do_the_real_work_spec g :
  do_the_real_work g =
    {| cnt := length (List.filter (selected g) detected_chips);
       error := if existsb (fun chip => selected g chip && snd (action g chip))
                     detected_chips
                then 1 else 0;
       trace := concat (chip_events g <$> detected_chips) |}.
Proof. rewrite do_the_real_work_foldl. apply foldl_scan_chips_spec. Qed.

Lemma first_match_Some g chip k :
  first_match g chip = Some k <->
    (k < chips_count g)%nat
    /\ sensors_match_chip chip (chips g !!! k) = true
    /\ forall j, (j < k)%nat -> sensors_match_chip chip (chips g !!! j) = false.
Proof.
  assert (Hlook : forall j, (j < chips_count g)%nat ->
            spec_list g !! j = Some (chips g !!! j)).
  { intros j Hj. unfold spec_list. rewrite list_lookup_fmap.
    by rewrite lookup_seq_lt. }
  unfold first_match. split.
  - intros H. destruct (list_find _ _) as [[j s]|] eqn:Hf; simplify_eq/=.
    apply list_find_Some in Hf as (Hl & Hs & Hmin).
    assert (k < chips_count g)%nat as Hk.
    { apply lookup_lt_Some in Hl. unfold spec_list in Hl.
      by rewrite length_fmap, length_seq in Hl. }
    rewrite Hlook in Hl by done. injection Hl as Hl; subst s.
    split_and!; [done..|].
    intros j Hj. specialize (Hmin j (chips g !!! j)).
    rewrite Hlook in Hmin by lia.
    destruct (sensors_match_chip chip (chips g !!! j)); [|done].
    by destruct Hmin.
  - intros (Hk & Hm & Hmin).
    assert (list_find (fun s => sensors_match_chip chip s = true) (spec_list g)
            = Some (k, chips g !!! k)) as ->; [|done].
    apply list_find_Some. split_and!; [by apply Hlook|done|].
    intros j y Hy Hj. rewrite Hlook in Hy by lia. injection Hy as Hy; subst y.
    by rewrite Hmin.
Qed.

Lemma first_match_None g chip :
  first_match g chip = None <->
    forall j, (j < chips_count g)%nat ->
      sensors_match_chip chip (chips g !!! j) = false.
Proof.
  unfold first_match. rewrite fmap_None, list_find_None, Forall_forall.
  unfold spec_list. split.
  - intros H j Hj. specialize (H (chips g !!! j)).
    destruct (sensors_match_chip chip (chips g !!! j)); [|done].
    exfalso. apply H; [|done]. apply list_elem_of_fmap.
    exists j. split; [done|]. apply elem_of_seq. lia.
  - intros H s Hs%list_elem_of_fmap.
    destruct Hs as (j & -> & Hj%elem_of_seq). rewrite H by lia. done.
Qed.

Lemma sets_calls_app t t' : sets_calls (t ++ t') = sets_calls t ++ sets_calls t'.
Proof. apply omap_app. Qed.

Lemma printer_calls_app t t' :
  printer_calls (t ++ t') = printer_calls t ++ printer_calls t'.
Proof. apply omap_app. Qed.

Lemma sets_calls_match_events chip i k : sets_calls (match_events chip i k) = [].
Proof.
  unfold match_events. revert i. induction k as [|k IH]; intros i; [done|].
  simpl. apply IH.
Qed.

Lemma printer_calls_match_events chip i k :
  printer_calls (match_events chip i k) = [].
Proof.
  unfold match_events. revert i. induction k as [|k IH]; intros i; [done|].
  simpl. apply IH.
Qed.

Lemma output_match_events chip i k : output (match_events chip i k) = [].
Proof.
  unfold match_events. revert i. induction k as [|k IH]; intros i; [done|].
  simpl. apply IH.
Qed.

Lemma sets_calls_do_a_set chip : sets_calls (fst (do_a_set chip)) = [chip].
Proof.
  unfold do_a_set. by repeat case_match.
Qed.

Lemma printer_calls_do_a_print g chip :
  truthy (hide_unknown g) = false -> printer_calls (do_a_print g chip) = [chip].
Proof.
  intros Hh. unfold do_a_print. rewrite Hh. by repeat case_match.
Qed.

Lemma do_a_print_hidden g chip :
  truthy (hide_unknown g) = true -> do_a_print g chip = [].
Proof. intros Hh. unfold do_a_print. by rewrite Hh. Qed.

(** What [do_a_set] returns. *)
Lemma do_a_set_ret chip :
  snd (do_a_set chip) =
    if truthy (sensors_do_chip_sets chip)
       && (sensors_do_chip_sets chip =? - SENSORS_ERR_PROC)
    then 1 else 0.
Proof. unfold do_a_set. by repeat case_match. Qed.

Lemma calls_concat_chip_events g (calls : list event -> list sensors_chip_name) l :
  (forall t t', calls (t ++ t') = calls t ++ calls t') ->
  (forall chip i k, calls (match_events chip i k) = []) ->
  (forall chip, calls (fst (action g chip)) = [chip]) ->
  calls (concat (chip_events g <$> l)) = List.filter (selected g) l.
Proof.
  intros Happ Hmatch Hact. induction l as [|chip l IH].
  - simpl. specialize (Hmatch zero_chip_name 0%nat 0%nat). done.
  - cbn [fmap list_fmap concat List.filter]. rewrite Happ, IH.
    unfold chip_events, selected. destruct (first_match g chip) as [k|].
    + rewrite bool_decide_eq_true_2 by eauto.
      by rewrite Happ, Hmatch, Hact.
    + rewrite bool_decide_eq_false_2 by (by intros [? ?]).
      by rewrite Hmatch.
Qed.

Lemma error_0_or_1 g :
  error (do_the_real_work g) = 0 \/ error (do_the_real_work g) = 1.
Proof. rewrite do_the_real_work_spec. simpl. case_match; auto. Qed.

Lemma do_the_real_work_cnt_le g :
  (cnt (do_the_real_work g) <= length detected_chips)%nat.
Proof.
  rewrite do_the_real_work_spec. simpl.
  induction detected_chips as [|c l IH]; simpl; [lia|].
  destruct (selected g c); simpl; lia.
Qed.

Lemma sets_calls_do_the_real_work g :
  truthy (do_sets g) = true ->
  sets_calls (trace (do_the_real_work g))
  = List.filter (selected g) detected_chips.
Proof.
  intros Hs. rewrite do_the_real_work_spec. cbn [trace].
  apply calls_concat_chip_events;
    auto using sets_calls_app, sets_calls_match_events.
  intros c. unfold action. rewrite Hs. apply sets_calls_do_a_set.
Qed.

Lemma printer_calls_do_the_real_work g :
  truthy (do_sets g) = false -> truthy (hide_unknown g) = false ->
  printer_calls (trace (do_the_real_work g))
  = List.filter (selected g) detected_chips.
Proof.
  intros Hs Hh. rewrite do_the_real_work_spec. cbn [trace].
  apply calls_concat_chip_events;
    auto using printer_calls_app, printer_calls_match_events.
  intros c. unfold action. rewrite Hs. by apply printer_calls_do_a_print.
Qed.

(** C2. For every detected chip and every list of specs, the inner loop
    asks the matcher about the specs in command-line order, from the first
    one on and no further than the first that matches; on that spec it
    performs the action of the run once and adds one to the count, whatever
    the later specs are; when no spec matches, the chip gets no action, no
    count and no error.  Over the whole run each selected chip is counted
    once and acted on once. *)
Theorem first_match_dispatches_once g chip w :
  (forall k, (k < chips_count g)%nat ->
     sensors_match_chip chip (chips g !!! k) = true ->
     (forall j, (j < k)%nat -> sensors_match_chip chip (chips g !!! j) = false) ->
     scan_chips g chip 0 w =
       {| cnt := S (cnt w);
          error := if snd (action g chip) then 1 else error w;
          trace := trace w ++ match_events chip 0 (S k) ++ fst (action g chip) |})
  /\ ((forall j, (j < chips_count g)%nat ->
         sensors_match_chip chip (chips g !!! j) = false) ->
      scan_chips g chip 0 w =
        {| cnt := cnt w; error := error w;
           trace := trace w ++ match_events chip 0 (chips_count g) |})
  /\ cnt (do_the_real_work g) = length (List.filter (selected g) detected_chips)
  /\ trace (do_the_real_work g) = concat (chip_events g <$> detected_chips)
  /\ (truthy (do_sets g) = true ->
      sets_calls (trace (do_the_real_work g))
      = List.filter (selected g) detected_chips)
  /\ (truthy (do_sets g) = false -> truthy (hide_unknown g) = false ->
      printer_calls (trace (do_the_real_work g))
      = List.filter (selected g) detected_chips).
Proof.
  split_and!.
  - intros k Hk Hm Hmin.
    assert (first_match g chip = Some k) as Hf by (by apply first_match_Some).
    rewrite scan_chips_spec. unfold selected, chip_events. rewrite Hf.
    by rewrite bool_decide_eq_true_2 by eauto.
  - intros Hnone. apply first_match_None in Hnone.
    rewrite scan_chips_spec. unfold selected, chip_events. rewrite Hnone.
    by rewrite bool_decide_eq_false_2 by (by intros [? ?]).
  - by rewrite do_the_real_work_spec.
  - by rewrite do_the_real_work_spec.
  - apply sets_calls_do_the_real_work.
  - apply printer_calls_do_the_real_work.
Qed.

(** C7. With no detected chip the dispatcher returns a count of zero and
    a clear error flag, whatever the specs and the mode. *)
Theorem no_detected_chips g :
  detected_chips = [] ->
  cnt (do_the_real_work g) = 0%nat /\ error (do_the_real_work g) = 0.
Proof. intros Hd. rewrite do_the_real_work_spec, Hd. done. Qed.

Lemma output_app t t' : output (t ++ t') = output t ++ output t'.
Proof. apply List.filter_app. Qed.

Lemma output_concat_chip_events g l :
  (forall chip, output (fst (action g chip)) = []) ->
  output (concat (chip_events g <$> l)) = [].
Proof.
  intros Hact. induction l as [|chip l IH]; [done|].
  cbn [fmap list_fmap concat]. rewrite output_app, IH, app_nil_r.
  unfold chip_events. destruct (first_match g chip).
  - by rewrite output_app, output_match_events, Hact.
  - apply output_match_events.
Qed.

Lemma existsb_false_forall {A} (f : A -> bool) (l : list A) :
  (forall x, x ∈ l -> f x = false) -> existsb f l = false.
Proof.
  induction l as [|x l IH]; intros H; [done|]. simpl.
  rewrite H by left. rewrite IH; [done|]. intros y Hy. apply H. by right.
Qed.

(** C8. In print mode the error flag is clear at the end of every run:
    the print action has no result to signal a failure with, and an
    adapter name that cannot be found is a line on the standard error
    stream among the output for the chip. *)
Theorem print_mode_keeps_error_clear g :
  truthy (do_sets g) = false ->
  error (do_the_real_work g) = 0
  /\ (forall chip w, error (dispatch g chip w) = error w)
  /\ (forall chip,
        truthy (hide_unknown g) = false ->
        truthy (hide_adapter g) = false ->
        sensors_get_adapter_name (bus chip) = None ->
        do_a_print g chip =
          [Stdout (sprintf_chip_name chip +:+ nl);
           Stderr ("Can't get adapter name for bus " +:+ pct_d (bus chip) +:+ nl);
           if truthy (do_unknown g) then PrintUnknownChip chip
           else PrintGenericChip chip;
           Stdout nl]).
Proof.
  intros Hs. split_and!.
  - rewrite do_the_real_work_spec. cbn [error].
    rewrite existsb_false_forall; [done|].
    intros chip _. unfold action. rewrite Hs. apply andb_false_r.
  - intros chip w. unfold dispatch. by rewrite Hs.
  - intros chip Hh Ha Hn. unfold do_a_print. rewrite Hh, Ha, Hn.
    cbn [negb app]. unfold printf, fprintf_stderr.
    reflexivity.
Qed.

(** C1, as the code has it.  In set mode every selected chip gets its
    call of [sensors_do_chip_sets], whatever the calls before it
    returned; but the error flag is raised by one status only, the
    negated [SENSORS_ERR_PROC]: when no detected chip returns that one,
    the flag is clear at the end, non-zero statuses included.  For such a
    non-zero status [do_a_set] writes its diagnostic and returns 0. *)
Theorem set_failure_other_than_proc_not_flagged g :
  truthy (do_sets g) = true ->
  (forall chip, chip ∈ detected_chips ->
     sensors_do_chip_sets chip <> - SENSORS_ERR_PROC) ->
  error (do_the_real_work g) = 0
  /\ sets_calls (trace (do_the_real_work g))
     = List.filter (selected g) detected_chips
  /\ (forall chip, chip ∈ detected_chips ->
        sensors_do_chip_sets chip <> 0 ->
        snd (do_a_set chip) = 0
        /\ exists message, fst (do_a_set chip) = [DoChipSets chip; Stderr message]).
Proof.
  intros Hs Hproc. split_and!; [| |intros chip Hin Hnz; split].
  - rewrite do_the_real_work_spec. cbn [error].
    rewrite existsb_false_forall; [done|].
    intros chip Hin. unfold action. rewrite Hs. cbn [snd].
    rewrite do_a_set_ret.
    destruct (Z.eqb_spec (sensors_do_chip_sets chip) (- SENSORS_ERR_PROC)) as [He|_].
    + exfalso. by apply (Hproc chip).
    + rewrite andb_false_r. apply andb_false_r.
  - by apply sets_calls_do_the_real_work.
  - rewrite do_a_set_ret.
    rewrite (proj2 (Z.eqb_neq _ _) (Hproc chip Hin)). by rewrite andb_false_r.
  - unfold do_a_set.
    assert (truthy (sensors_do_chip_sets chip) = true) as ->.
    { by apply negb_true_iff, Z.eqb_neq. }
    rewrite (proj2 (Z.eqb_neq _ _) (Hproc chip Hin)).
    destruct (_ =? _); eexists; reflexivity.
Qed.

(** The status that does raise the flag. *)
Lemma set_proc_failure_flagged g chip :
  truthy (do_sets g) = true ->
  chip ∈ detected_chips -> selected g chip = true ->
  sensors_do_chip_sets chip = - SENSORS_ERR_PROC ->
  sensors_do_chip_sets chip <> 0 ->
  error (do_the_real_work g) = 1.
Proof.
  intros Hs Hin Hsel Hp Hnz. rewrite do_the_real_work_spec. cbn [error].
  assert (existsb (fun c => selected g c && snd (action g c)) detected_chips
          = true) as ->; [|done].
  apply existsb_exists. exists chip. split; [by apply list_elem_of_In|].
  rewrite Hsel. unfold action. rewrite Hs. cbn [snd andb].
  rewrite do_a_set_ret. rewrite Hp, Z.eqb_refl, andb_true_r.
  assert (truthy (- SENSORS_ERR_PROC) = true) as ->; [|done].
  unfold truthy. rewrite <- Hp. by apply negb_true_iff, Z.eqb_neq.
Qed.

(** With [-U] in print mode the run writes nothing. *)
Lemma hidden_print_mode_silent g :
  truthy (do_sets g) = false -> truthy (hide_unknown g) = true ->
  output (trace (do_the_real_work g)) = [].
Proof.
  intros Hs Hh. rewrite do_the_real_work_spec. cbn [trace].
  apply output_concat_chip_events. intros chip. unfold action.
  rewrite Hs. cbn [fst]. by rewrite do_a_print_hidden.
Qed.

End Dispatcher.

(** ** The main function *)

Section Main.

Context `{L : libsensors}.

Lemma bind_Continue {A B} (m : prog A) (k : A -> prog B) t b :
  bind m k = (t, Continue b) ->
  exists t1 a t2, m = (t1, Continue a) /\ k a = (t2, Continue b) /\ t = t1 ++ t2.
Proof.
  unfold bind. destruct m as [t1 [s|a]]; [done|].
  destruct (k a) as [t2 r] eqn:Hk. intros [= <- ->]. eauto 10.
Qed.

Ltac option_char c name :=
  destruct (Ascii.eqb_spec c name) as [->|?].

Ltac flags_from IH H :=
  apply IH in H as (? & ? & ? & ? & ? & ? & ? & ?);
  unfold flag_after in *; cbn in *;
  split_and!; try done;
  repeat match goal with
    | H : context [existsb ?f ?l] |- _ => destruct (existsb f l)
    end; done.

Lemma getopt_loop_Continue opts : forall g cfg t g' cfg',
  getopt_loop opts g cfg = (t, Continue (g', cfg')) ->
  t = []
  /\ chips g' = chips g /\ chips_count g' = chips_count g
  /\ do_sets g' = flag_after "s" opts (do_sets g)
  /\ fahrenheit g' = flag_after "f" opts (fahrenheit g)
  /\ hide_adapter g' = flag_after "A" opts (hide_adapter g)
  /\ hide_unknown g' = flag_after "U" opts (hide_unknown g)
  /\ do_unknown g' = flag_after "u" opts (do_unknown g).
Proof.
  induction opts as [|[c optarg] opts IH]; intros g cfg t g' cfg' H.
  - injection H as <- <- <-. done.
  - cbn [getopt_loop] in H.
    option_char c ":"%char; [done|]. option_char c "?"%char; [done|].
    cbn [orb] in H.
    option_char c "h"%char; [done|]. option_char c "v"%char; [done|].
    option_char c "c"%char.
    { flags_from IH H. }
    option_char c "s"%char.
    { flags_from IH H. }
    option_char c "f"%char.
    { flags_from IH H. }
    option_char c "A"%char.
    { flags_from IH H. }
    option_char c "U"%char.
    { flags_from IH H. }
    option_char c "u"%char.
    { flags_from IH H. }
    done.
Qed.

Lemma getopt_loop_accepted opts : forall g cfg,
  forallb accepted_option opts = true ->
  exists g' cfg', getopt_loop opts g cfg = ([], Continue (g', cfg')).
Proof.
  induction opts as [|[c optarg] opts IH]; intros g cfg Hacc.
  - by eexists _, _.
  - cbn [forallb] in Hacc. apply andb_true_iff in Hacc as [Hc Hacc].
    unfold accepted_option in Hc. cbn in Hc.
    cbn [getopt_loop].
    option_char c "c"%char; [by apply IH|].
    option_char c "s"%char; [by apply IH|].
    option_char c "f"%char; [by apply IH|].
    option_char c "A"%char; [by apply IH|].
    option_char c "U"%char; [by apply IH|].
    option_char c "u"%char; [by apply IH|].
    done.
Qed.

Lemma parse_chip_names_fit args : forall g,
  Forall well_formed args ->
  (chips_count g + length args < CHIPS_MAX)%nat ->
  length (chips g) = CHIPS_MAX ->
  exists g',
    parse_chip_names args g = ([], Continue g')
    /\ chips_count g' = (chips_count g + length args)%nat
    /\ length (chips g') = CHIPS_MAX
    /\ take (chips_count g') (chips g')
       = take (chips_count g) (chips g)
         ++ ((fun a => snd (sensors_parse_chip_name a)) <$> args)
    /\ do_sets g' = do_sets g /\ hide_unknown g' = hide_unknown g
    /\ hide_adapter g' = hide_adapter g /\ do_unknown g' = do_unknown g.
Proof.
  induction args as [|a args IH]; intros g Hwf Hfit Hlen.
  - exists g. rewrite Nat.add_0_r, app_nil_r. done.
  - apply Forall_cons in Hwf as [Ha Hwf]. cbn [length] in Hfit.
    cbn [parse_chip_names]. unfold well_formed in Ha.
    destruct (sensors_parse_chip_name a) as [res parsed] eqn:Hp.
    cbn [fst] in Ha. subst res. cbn [truthy Z.eqb negb].
    cbn [set_chips set_chips_count chips_count chips].
    destruct (Nat.eqb_spec (S (chips_count g)) CHIPS_MAX) as [He|_]; [lia|].
    edestruct (IH (set_chips_count (S (chips_count g))
                     (set_chips (<[chips_count g:=parsed]> (chips g)) g)))
      as (g' & -> & Hcount & Hlen' & Htake & Hflags); [done|simpl; lia| |].
    { simpl. by rewrite length_insert. }
    exists g'. split; [done|]. simpl in *. split; [lia|]. split; [done|].
    split; [|done].
    rewrite Htake. cbn [fmap list_fmap]. rewrite Hp. cbn [snd].
    rewrite (take_S_r _ _ parsed).
    + rewrite take_insert_ge by lia. by rewrite <- app_assoc.
    + apply list_lookup_insert_eq. lia.
Qed.

Lemma parse_chip_names_full args : forall g,
  Forall well_formed args ->
  (chips_count g < CHIPS_MAX)%nat ->
  (CHIPS_MAX <= chips_count g + length args)%nat ->
  parse_chip_names args g =
    ([Stderr ("Too many chips on command line!" +:+ nl)], Exit 1).
Proof.
  induction args as [|a args IH]; intros g Hwf Hlt Hge.
  - simpl in Hge. lia.
  - apply Forall_cons in Hwf as [Ha Hwf]. cbn [length] in Hge.
    cbn [parse_chip_names]. unfold well_formed in Ha.
    destruct (sensors_parse_chip_name a) as [res parsed] eqn:Hp.
    cbn [fst] in Ha. subst res. cbn [truthy Z.eqb negb].
    cbn [set_chips set_chips_count chips_count chips].
    destruct (Nat.eqb_spec (S (chips_count g)) CHIPS_MAX) as [He|Hne].
    + reflexivity.
    + apply IH; [done|simpl; lia|simpl; lia].
Qed.

Lemma parse_chip_names_Continue args : forall g t g',
  parse_chip_names args g = (t, Continue g') -> t = [].
Proof.
  induction args as [|a args IH]; intros g t g' H.
  - by injection H as <- _.
  - cbn [parse_chip_names] in H.
    destruct (sensors_parse_chip_name a) as [res parsed].
    destruct (truthy res); [done|].
    destruct (Nat.eqb _ _); [done|]. by apply IH in H.
Qed.

Lemma chips_from_args_Continue args g t g' :
  chips_from_args args g = (t, Continue g') -> t = [].
Proof.
  destruct args as [|a args]; [by intros [= <- _]|].
  apply parse_chip_names_Continue.
Qed.

(** The shape of a start that reaches the dispatcher. *)
Lemma startup_Continue opts args t g :
  startup opts args = (t, Continue g) ->
  exists g1 cfg t',
    getopt_loop opts reset_globals
      (ETCDIR +:+ "/" +:+ DEFAULT_CONFIG_FILE_NAME) = ([], Continue (g1, cfg))
    /\ chips_from_args args g1 = ([], Continue g)
    /\ t = SensorsInit cfg :: t' /\ printed t' = [].
Proof.
  unfold startup. intros H.
  apply bind_Continue in H as (t1 & [g1 cfg] & t2 & Hopt & H & ->).
  pose proof (getopt_loop_Continue _ _ _ _ _ _ Hopt) as (-> & _).
  apply bind_Continue in H as (t3 & g2 & t4 & Hargs & H & ->).
  pose proof (chips_from_args_Continue _ _ _ _ Hargs) as ->.
  apply bind_Continue in H as (t5 & [] & t6 & Hopen & H & ->).
  apply bind_Continue in H as (t7 & [] & t8 & Hinit & H & ->).
  injection Hinit as <-.
  destruct (truthy (sensors_init cfg)).
  { apply bind_Continue in H as (? & ? & ? & _ & ? & _). done. }
  apply bind_Continue in H as (t9 & [] & t10 & Hclose & H & ->).
  injection H as <- <-.
  assert (t5 = []) as ->.
  { unfold open_config_file in Hopen.
    destruct (String.eqb cfg "-"); [by injection Hopen|].
    destruct (fopen_succeeds cfg); [by injection Hopen|done]. }
  exists g1, cfg, t9. split_and!; [done..| |].
  - by rewrite app_nil_r.
  - unfold close_config_file in Hclose.
    destruct (fclose_succeeds cfg); by injection Hclose as <-.
Qed.

Lemma main_Continue opts args t g :
  startup opts args = (t, Continue g) ->
  main opts args = (t ++ fst (report g), snd (report g)).
Proof. unfold main. intros ->. by destruct (report g). Qed.

(** C9.  Once the start has reached the dispatcher: when no chip was
    handled, [main] writes the not-found message after the events of the
    dispatch and exits with status 1; when the error flag is set the exit
    status is not zero; when at least one chip was handled and the error
    flag is clear the exit status is zero. *)
Theorem exit_status_after_dispatch opts args t g :
  startup opts args = (t, Continue g) ->
  (cnt (do_the_real_work g) = 0%nat ->
     main opts args
     = (t ++ trace (do_the_real_work g) ++ [not_found_message g; SensorsCleanup], 1)
     /\ snd (main opts args) <> 0)
  /\ (error (do_the_real_work g) <> 0 -> snd (main opts args) <> 0)
  /\ ((0 < cnt (do_the_real_work g))%nat -> error (do_the_real_work g) = 0 ->
      snd (main opts args) = 0).
Proof.
  intros Hstart. rewrite (main_Continue _ _ _ _ Hstart). unfold report.
  destruct (Nat.eqb_spec (cnt (do_the_real_work g)) 0) as [H0|Hpos];
    cbn [negb fst snd].
  - split_and!; [|done|lia]. intros _. by split.
  - split_and!; [done|done|by intros _ ->].
Qed.

Lemma spec_list_take g :
  (chips_count g <= length (chips g))%nat ->
  spec_list g = take (chips_count g) (chips g).
Proof.
  intros Hle. unfold spec_list. apply list_eq. intros i.
  rewrite list_lookup_fmap.
  destruct (decide (i < chips_count g)%nat) as [Hi|Hi].
  - rewrite lookup_seq_lt by done. rewrite lookup_take_lt by done. simpl.
    symmetry. apply list_lookup_lookup_total_lt. lia.
  - rewrite lookup_seq_ge by lia. rewrite lookup_take_ge by lia. done.
Qed.

Lemma filter_all_true {A} (f : A -> bool) (l : list A) :
  (forall x, f x = true) -> List.filter f l = l.
Proof.
  intros H. induction l as [|x l IH]; [done|]. simpl. by rewrite H, IH.
Qed.

(** C6.  With no chip name on the command line, the list of specs the
    dispatcher works with has exactly one entry, whose prefix, bus and
    address are the three wildcards; with a matcher for which such a spec
    matches every chip, every detected chip is selected and counted. *)
Theorem no_chip_argument_selects_any opts t g :
  startup opts [] = (t, Continue g) ->
  (exists s, spec_list g = [s] /\ is_any s)
  /\ ((forall chip s, is_any s -> sensors_match_chip chip s = true) ->
      cnt (do_the_real_work g) = length detected_chips
      /\ forall chip, selected g chip = true).
Proof.
  intros Hstart.
  apply startup_Continue in Hstart as (g1 & cfg & t' & Hopt & Hargs & _).
  apply getopt_loop_Continue in Hopt as (_ & Hchips & _).
  cbn [chips_from_args] in Hargs. injection Hargs as <-.
  match goal with |- context [spec_list ?g'] => set (g := g') end.
  assert (Hlist : exists s, spec_list g = [s] /\ is_any s).
  { exists {| prefix := SENSORS_CHIP_NAME_PREFIX_ANY;
              bus := SENSORS_CHIP_NAME_BUS_ANY;
              addr := SENSORS_CHIP_NAME_ADDR_ANY;
              busname := busname (chips g1 !!! 0%nat) |}.
    split; [|by split_and!].
    unfold spec_list, g.
    cbn [chips_count set_chips_count chips set_chips seq fmap list_fmap].
    rewrite Hchips. reflexivity. }
  split; [exact Hlist|].
  intros Hany. destruct Hlist as (s & Hlist & Hs).
  assert (Hsel : forall chip, selected g chip = true).
  { intros chip. unfold selected, first_match. rewrite Hlist.
    cbn [list_find]. rewrite decide_True; [done|]. by apply Hany. }
  split; [|done].
  rewrite do_the_real_work_spec. cbn [cnt]. by rewrite filter_all_true.
Qed.

Lemma parse_chip_names_flags args : forall g t g',
  parse_chip_names args g = (t, Continue g') ->
  do_sets g' = do_sets g /\ hide_unknown g' = hide_unknown g
  /\ hide_adapter g' = hide_adapter g /\ do_unknown g' = do_unknown g.
Proof.
  induction args as [|a args IH]; intros g t g' H.
  - by injection H as _ <-.
  - cbn [parse_chip_names] in H.
    destruct (sensors_parse_chip_name a) as [res parsed].
    destruct (truthy res); [done|].
    destruct (Nat.eqb _ _); [done|]. by apply IH in H.
Qed.

Lemma chips_from_args_flags args g t g' :
  chips_from_args args g = (t, Continue g') ->
  do_sets g' = do_sets g /\ hide_unknown g' = hide_unknown g
  /\ hide_adapter g' = hide_adapter g /\ do_unknown g' = do_unknown g.
Proof.
  destruct args as [|a args]; [by intros [= _ <-]|].
  apply parse_chip_names_flags.
Qed.

Lemma printed_app t t' : printed (t ++ t') = printed t ++ printed t'.
Proof. apply List.filter_app. Qed.

Lemma printed_output t : output t = [] -> printed t = [].
Proof.
  induction t as [|ev t IH]; [done|]. simpl.
  destruct ev; simpl; try done; auto.
Qed.

(** C10.  With [-U] among the options and without [-s], [hide_unknown] is
    set: the print action returns at once with no event, every selected
    chip is counted all the same, the dispatch writes nothing, and when the
    count is positive [main] exits with status 0 having written nothing on
    the standard output. *)
Theorem hidden_print_counts_but_prints_nothing opts args t g :
  startup opts args = (t, Continue g) ->
  existsb (fun o => Ascii.eqb (fst o) "U") opts = true ->
  existsb (fun o => Ascii.eqb (fst o) "s") opts = false ->
  hide_unknown g = 1
  /\ (forall chip, do_a_print g chip = [])
  /\ cnt (do_the_real_work g) = length (List.filter (selected g) detected_chips)
  /\ output (trace (do_the_real_work g)) = []
  /\ ((0 < cnt (do_the_real_work g))%nat ->
      snd (main opts args) = 0 /\ printed (fst (main opts args)) = []).
Proof.
  intros Hstart HU Hs.
  pose proof (startup_Continue _ _ _ _ Hstart)
    as (g1 & cfg & t' & Hopt & Hargs & -> & Ht').
  apply getopt_loop_Continue in Hopt as (_ & _ & _ & Hsets & _ & _ & Hhide & _).
  apply chips_from_args_flags in Hargs as (Hsets' & Hhide' & _).
  unfold flag_after in Hsets, Hhide. rewrite Hs in Hsets. rewrite HU in Hhide.
  assert (truthy (do_sets g) = false) as Hmode by (by rewrite Hsets', Hsets).
  assert (truthy (hide_unknown g) = true) as Hhidden by (by rewrite Hhide', Hhide).
  pose proof (hidden_print_mode_silent g Hmode Hhidden) as Hsilent.
  split_and!.
  - by rewrite Hhide'.
  - intros chip. by apply do_a_print_hidden.
  - by rewrite do_the_real_work_spec.
  - done.
  - intros Hpos. rewrite (main_Continue _ _ _ _ Hstart). unfold report.
    destruct (Nat.eqb_spec (cnt (do_the_real_work g)) 0) as [H0|_]; [lia|].
    cbn [negb fst snd]. split.
    + rewrite do_the_real_work_spec. cbn [error].
      rewrite existsb_false_forall; [done|].
      intros chip _. unfold action. rewrite Hmode. apply andb_false_r.
    + change (SensorsInit cfg :: t') with ([SensorsInit cfg] ++ t').
      rewrite !printed_app. by rewrite (printed_output _ Hsilent), Ht'.
Qed.

(** C4, as the code has it.  With options that do not end the program and
    names that the parser accepts: a command line of twenty names or more is
    refused with the too-many-chips message and exit status 1, before any
    other event; a command line of one to nineteen names is parsed in full,
    the specs being the parsed names in order. *)
Theorem chip_names_capacity opts args :
  forallb accepted_option opts = true ->
  Forall well_formed args ->
  ((CHIPS_MAX <= length args)%nat ->
     main opts args
     = ([Stderr ("Too many chips on command line!" +:+ nl)], 1))
  /\ ((0 < length args < CHIPS_MAX)%nat ->
      exists g1 cfg g,
        getopt_loop opts reset_globals
          (ETCDIR +:+ "/" +:+ DEFAULT_CONFIG_FILE_NAME)
        = ([], Continue (g1, cfg))
        /\ chips_from_args args g1 = ([], Continue g)
        /\ spec_list g = (fun a => snd (sensors_parse_chip_name a)) <$> args).
Proof.
  intros Hopts Hwf.
  destruct (getopt_loop_accepted opts reset_globals
              (ETCDIR +:+ "/" +:+ DEFAULT_CONFIG_FILE_NAME) Hopts)
    as (g1 & cfg & Hopt).
  pose proof (getopt_loop_Continue _ _ _ _ _ _ Hopt) as (_ & Hchips & Hcount & _).
  split.
  - intros Hlen. unfold main, startup. rewrite Hopt. cbn [bind].
    assert (chips_from_args args g1
            = ([Stderr ("Too many chips on command line!" +:+ nl)], Exit 1))
      as ->; [|done].
    destruct args as [|a args]; [simpl in Hlen; unfold CHIPS_MAX in Hlen; lia|].
    cbn [chips_from_args]. apply parse_chip_names_full; [done| |].
    + rewrite Hcount. change (chips_count reset_globals) with 0%nat.
      unfold CHIPS_MAX. lia.
    + rewrite Hcount. change (chips_count reset_globals) with 0%nat. lia.
  - intros [Hpos Hlen].
    destruct (parse_chip_names_fit args g1 Hwf) as (g & Hp & Hn & Hl & Htake & _).
    + rewrite Hcount. change (chips_count reset_globals) with 0%nat. lia.
    + rewrite Hchips. reflexivity.
    + exists g1, cfg, g. split_and!; [done| |].
      * destruct args; [simpl in Hpos; lia|done].
      * rewrite Hcount in Hn, Htake.
        change (chips_count reset_globals) with 0%nat in Hn, Htake.
        rewrite spec_list_take by lia. by rewrite Htake.
Qed.
End Main.

(** ** Runs on the sample library *)

(** An ISA chip whose prefix has 200 characters: what the buffer holds is
    not the prefix followed by [-isa-] and an address. *)
Lemma long_chip_rendering_is_cut :
  ~ exists h : string,
      @sprintf_chip_name Sample.quiet Sample.long_chip
      = Sample.long_prefix +:+ "-isa-" +:+ h.
Proof.
  intros [h Hh]. apply (f_equal String.length) in Hh.
  rewrite !length_append in Hh. vm_compute in Hh. lia.
Qed.

(** The rendering does not tell the bus kinds apart: a chip on the ISA bus
    and a chip on a dummy bus named [isa] have one chip name. *)
Remark rendering_shared_by_two_chips :
  Sample.lm78_isa <> Sample.lm78_dummy
  /\ @sprintf_chip_name Sample.quiet Sample.lm78_isa
     = @sprintf_chip_name Sample.quiet Sample.lm78_dummy.
Proof. split; [discriminate|reflexivity]. Qed.

(** Set mode on two chips, the writes of the first failing in part. *)
Lemma set_failure_other_than_proc_not_flagged_witness :
  truthy (do_sets (Sample.globals_any 1 0)) = true
  /\ (forall chip, chip ∈ @detected_chips Sample.two_chips_partial ->
        @sensors_do_chip_sets Sample.two_chips_partial chip
        <> - @SENSORS_ERR_PROC Sample.two_chips_partial)
  /\ @sensors_do_chip_sets Sample.two_chips_partial Sample.lm78_isa
     = - @SENSORS_ERR_ACCESS_W Sample.two_chips_partial
  /\ error (@do_the_real_work Sample.two_chips_partial (Sample.globals_any 1 0)) = 0
  /\ sets_calls
       (trace (@do_the_real_work Sample.two_chips_partial (Sample.globals_any 1 0)))
     = [Sample.lm78_isa; Sample.lm75_i2c].
Proof.
  assert (Hproc : forall chip, chip ∈ @detected_chips Sample.two_chips_partial ->
            @sensors_do_chip_sets Sample.two_chips_partial chip
            <> - @SENSORS_ERR_PROC Sample.two_chips_partial).
  { intros chip Hin. apply elem_of_cons in Hin as [->|Hin]; [discriminate|].
    apply elem_of_cons in Hin as [->|Hin]; [discriminate|].
    by apply elem_of_nil in Hin. }
  destruct (@set_failure_other_than_proc_not_flagged
              Sample.two_chips_partial (Sample.globals_any 1 0) eq_refl Hproc)
    as (Herr & Hcalls & _).
  split_and!; [reflexivity|exact Hproc|reflexivity|exact Herr|].
  rewrite Hcalls. reflexivity.
Defined.

(** A chip that both of two specs match, and a chip that the only spec does
    not match. *)
Lemma first_match_dispatches_once_witness :
  ((0 < chips_count Sample.globals_two_any)%nat
   /\ @sensors_match_chip Sample.two_chips Sample.lm78_isa
        (chips Sample.globals_two_any !!! 0%nat) = true
   /\ @sensors_match_chip Sample.two_chips Sample.lm78_isa
        (chips Sample.globals_two_any !!! 1%nat) = true
   /\ @scan_chips Sample.two_chips Sample.globals_two_any Sample.lm78_isa 0
        Sample.start
      = {| cnt := 1;
           error := 0;
           trace :=
             MatchChip Sample.lm78_isa 0
               :: @do_a_print Sample.two_chips Sample.globals_two_any
                    Sample.lm78_isa |})
  /\ ((forall j, (j < chips_count Sample.globals_w83781d)%nat ->
         @sensors_match_chip Sample.two_chips Sample.lm78_isa
           (chips Sample.globals_w83781d !!! j) = false)
      /\ @scan_chips Sample.two_chips Sample.globals_w83781d Sample.lm78_isa 0
           Sample.start
         = {| cnt := 0; error := 0;
              trace := [MatchChip Sample.lm78_isa 0] |}).
Proof.
  split.
  - split_and!; [vm_compute; lia|reflexivity|reflexivity|].
    rewrite (proj1 (@first_match_dispatches_once Sample.two_chips
                      Sample.globals_two_any Sample.lm78_isa Sample.start)
               0%nat); [reflexivity|vm_compute; lia|reflexivity|intros j Hj; lia].
  - assert (Hnone : forall j, (j < chips_count Sample.globals_w83781d)%nat ->
              @sensors_match_chip Sample.two_chips Sample.lm78_isa
                (chips Sample.globals_w83781d !!! j) = false).
    { intros j Hj. destruct j as [|j]; [reflexivity|]. simpl in Hj. lia. }
    split; [exact Hnone|].
    rewrite (proj1 (proj2 (@first_match_dispatches_once Sample.two_chips
                             Sample.globals_w83781d Sample.lm78_isa Sample.start))
               Hnone).
    reflexivity.
Defined.

(** The ISA chip of the examples. *)
Lemma sprintf_chip_name_rendering_witness :
  prefix Sample.lm78_isa = Some "lm78"%string
  /\ bus Sample.lm78_isa = @SENSORS_CHIP_NAME_BUS_ISA Sample.quiet
  /\ 0 <= addr Sample.lm78_isa < 16 ^ 4
  /\ is_hex_numeral 4 (to_unsigned (addr Sample.lm78_isa)) "002d"
  /\ exists h4 : string,
       h4 = "002d"%string /\ String.length h4 = 4%nat
       /\ @sprintf_chip_name Sample.quiet Sample.lm78_isa
          = cut ("lm78" +:+ "-isa-" +:+ h4).
Proof.
  assert (Hnum : is_hex_numeral 4 (to_unsigned (addr Sample.lm78_isa)) "002d").
  { split; [reflexivity|]. split; [simpl; lia|]. simpl. lia. }
  split_and!; [reflexivity|reflexivity|simpl; lia|simpl; lia|exact Hnum|].
  destruct (@sprintf_chip_name_rendering Sample.quiet Sample.lm78_isa)
    as (Hname & Hunique & _).
  destruct (Hname "lm78"%string eq_refl)
    as (h4 & h2 & (Hh4 & Hlength) & _ & Hisa & _).
  exists h4. split_and!; [|apply Hlength; simpl; lia|apply Hisa; reflexivity].
  exact (Hunique _ _ _ _ Hh4 Hnum).
Defined.

(** Twenty times the all-wildcard name. *)
Lemma chip_names_capacity_witness :
  forallb accepted_option [] = true
  /\ Forall (@well_formed Sample.quiet) (replicate 20 "*"%string)
  /\ (CHIPS_MAX <= length (replicate 20 "*"%string))%nat
  /\ @main Sample.quiet [] (replicate 20 "*"%string)
     = ([Stderr ("Too many chips on command line!" +:+ nl)], 1).
Proof.
  assert (Hwf : Forall (@well_formed Sample.quiet) (replicate 20 "*"%string)).
  { apply Forall_replicate. reflexivity. }
  split_and!; [reflexivity|exact Hwf|vm_compute; lia|].
  apply (@chip_names_capacity Sample.quiet [] (replicate 20 "*"%string) eq_refl Hwf).
  vm_compute. lia.
Defined.

(** Set mode with nothing detected. *)
Lemma no_detected_chips_witness :
  @detected_chips Sample.quiet = []
  /\ cnt (@do_the_real_work Sample.quiet (Sample.globals_any 1 0)) = 0%nat
  /\ error (@do_the_real_work Sample.quiet (Sample.globals_any 1 0)) = 0.
Proof.
  split; [reflexivity|].
  apply (@no_detected_chips Sample.quiet (Sample.globals_any 1 0)). reflexivity.
Defined.

(** Print mode on two chips with no adapter name to be had. *)
Lemma print_mode_keeps_error_clear_witness :
  truthy (do_sets (Sample.globals_any 0 0)) = false
  /\ error (@do_the_real_work Sample.two_chips (Sample.globals_any 0 0)) = 0
  /\ (@sensors_get_adapter_name Sample.two_chips (bus Sample.lm75_i2c) = None
      /\ @do_a_print Sample.two_chips (Sample.globals_any 0 0) Sample.lm75_i2c
         = [Stdout ("lm75-i2c-0-48" +:+ nl);
            Stderr ("Can't get adapter name for bus 0" +:+ nl);
            PrintGenericChip Sample.lm75_i2c;
            Stdout nl]).
Proof.
  destruct (@print_mode_keeps_error_clear Sample.two_chips
              (Sample.globals_any 0 0) eq_refl) as (Herr & _ & Hprint).
  split_and!; [reflexivity|exact Herr|reflexivity|].
  rewrite (Hprint Sample.lm75_i2c eq_refl eq_refl eq_refl). reflexivity.
Defined.

(** [sensors] with no argument, two chips detected. *)
Lemma no_chip_argument_selects_any_witness :
  @startup Sample.two_chips [] []
  = ([SensorsInit "/etc/sensors.conf"], Continue (Sample.globals_any 0 0))
  /\ (exists s, @spec_list (Sample.globals_any 0 0) = [s]
                /\ @is_any Sample.two_chips s)
  /\ (forall chip s, @is_any Sample.two_chips s ->
        @sensors_match_chip Sample.two_chips chip s = true)
  /\ cnt (@do_the_real_work Sample.two_chips (Sample.globals_any 0 0)) = 2%nat.
Proof.
  assert (Hany : forall chip s, @is_any Sample.two_chips s ->
            @sensors_match_chip Sample.two_chips chip s = true).
  { intros chip s (Hprefix & Hbus & Haddr). simpl. unfold Sample.match_chip.
    rewrite Hprefix, Hbus, Haddr. reflexivity. }
  destruct (@no_chip_argument_selects_any Sample.two_chips []
              [SensorsInit "/etc/sensors.conf"] (Sample.globals_any 0 0) eq_refl)
    as [Hlist Hall].
  split_and!; [reflexivity|exact Hlist|exact Hany|].
  rewrite (proj1 (Hall Hany)). reflexivity.
Defined.

(** [sensors] with no argument: two chips detected, and none. *)
Lemma exit_status_after_dispatch_witness :
  (@startup Sample.two_chips [] []
   = ([SensorsInit "/etc/sensors.conf"], Continue (Sample.globals_any 0 0))
   /\ (0 < cnt (@do_the_real_work Sample.two_chips (Sample.globals_any 0 0)))%nat
   /\ error (@do_the_real_work Sample.two_chips (Sample.globals_any 0 0)) = 0
   /\ snd (@main Sample.two_chips [] []) = 0)
  /\ (@startup Sample.quiet [] []
      = ([SensorsInit "/etc/sensors.conf"], Continue (Sample.globals_any 0 0))
      /\ cnt (@do_the_real_work Sample.quiet (Sample.globals_any 0 0)) = 0%nat
      /\ @main Sample.quiet [] []
         = ([SensorsInit "/etc/sensors.conf";
             Stderr ("No sensors found!" +:+ nl
                       +:+ "Make sure you loaded all the kernel drivers you need."
                       +:+ nl
                       +:+ "Try sensors-detect to find out which these are."
                       +:+ nl);
             SensorsCleanup], 1)).
Proof.
  split.
  - split_and!; [reflexivity|vm_compute; lia|reflexivity|].
    apply (proj2 (proj2 (@exit_status_after_dispatch Sample.two_chips [] []
                           [SensorsInit "/etc/sensors.conf"]
                           (Sample.globals_any 0 0) eq_refl))).
    + vm_compute. lia.
    + reflexivity.
  - split_and!; [reflexivity|reflexivity|].
    rewrite (proj1 (proj1 (@exit_status_after_dispatch Sample.quiet [] []
                             [SensorsInit "/etc/sensors.conf"]
                             (Sample.globals_any 0 0) eq_refl) eq_refl)).
    reflexivity.
Defined.

(** [sensors -U] with two chips detected. *)
Lemma hidden_print_counts_but_prints_nothing_witness :
  @startup Sample.two_chips [("U"%char, EmptyString)] []
  = ([SensorsInit "/etc/sensors.conf"], Continue (Sample.globals_any 0 1))
  /\ existsb (fun o => Ascii.eqb (fst o) "U") [("U"%char, EmptyString)] = true
  /\ existsb (fun o => Ascii.eqb (fst o) "s") [("U"%char, EmptyString)] = false
  /\ cnt (@do_the_real_work Sample.two_chips (Sample.globals_any 0 1)) = 2%nat
  /\ output (trace (@do_the_real_work Sample.two_chips (Sample.globals_any 0 1)))
     = []
  /\ snd (@main Sample.two_chips [("U"%char, EmptyString)] []) = 0
  /\ printed (fst (@main Sample.two_chips [("U"%char, EmptyString)] [])) = [].
Proof.
  destruct (@hidden_print_counts_but_prints_nothing Sample.two_chips
              [("U"%char, EmptyString)] []
              [SensorsInit "/etc/sensors.conf"] (Sample.globals_any 0 1)
              eq_refl eq_refl eq_refl)
    as (_ & _ & Hcnt & Hsilent & Hexit).
  assert (Hpos : (0 < cnt (@do_the_real_work Sample.two_chips
                             (Sample.globals_any 0 1)))%nat).
  { rewrite Hcnt. vm_compute. lia. }
  split_and!; [reflexivity|reflexivity|reflexivity| |exact Hsilent
              |exact (proj1 (Hexit Hpos))|exact (proj2 (Hexit Hpos))].
  rewrite Hcnt. reflexivity.
Defined.

(** ** The start of the program *)

Section Start.

Context `{L : libsensors}.

Ltac option_char c name :=
  destruct (Ascii.eqb_spec c name) as [->|?].

Lemma globals_eta g :
  g = {| chips := chips g; chips_count := chips_count g; do_sets := do_sets g;
         do_unknown := do_unknown g; fahrenheit := fahrenheit g;
         hide_adapter := hide_adapter g; hide_unknown := hide_unknown g |}.
Proof. by destruct g. Qed.

Lemma getopt_loop_config opts : forall g cfg t g' cfg',
  getopt_loop opts g cfg = (t, Continue (g', cfg')) ->
  cfg' = config_after opts cfg.
Proof.
  induction opts as [|[c optarg] opts IH]; intros g cfg t g' cfg' H.
  - by injection H as _ _ <-.
  - cbn [getopt_loop] in H. unfold config_after. cbn [foldl fst snd].
    option_char c ":"%char; [done|]. option_char c "?"%char; [done|].
    cbn [orb] in H.
    option_char c "h"%char; [done|]. option_char c "v"%char; [done|].
    option_char c "c"%char; [by apply IH in H|].
    option_char c "s"%char; [by apply IH in H|].
    option_char c "f"%char; [by apply IH in H|].
    option_char c "A"%char; [by apply IH in H|].
    option_char c "U"%char; [by apply IH in H|].
    option_char c "u"%char; [by apply IH in H|].
    done.
Qed.

(** The option loop over options that do not end the program. *)
Lemma getopt_loop_accepted_result opts :
  forallb accepted_option opts = true ->
  getopt_loop opts reset_globals default_config
  = ([], Continue (globals_after opts, config_after opts default_config)).
Proof.
  intros Hacc.
  destruct (getopt_loop_accepted opts reset_globals default_config Hacc)
    as (g' & cfg' & Hloop).
  rewrite Hloop. f_equal. f_equal.
  pose proof (getopt_loop_config _ _ _ _ _ _ Hloop) as ->.
  apply getopt_loop_Continue in Hloop
    as (_ & Hchips & Hcount & Hs & Hf & HA & HU & Hu).
  f_equal. rewrite (globals_eta g'). unfold globals_after.
  by rewrite Hchips, Hcount, Hs, Hf, HA, HU, Hu.
Qed.

Lemma getopt_loop_app pre : forall rest g cfg g' cfg',
  getopt_loop pre g cfg = ([], Continue (g', cfg')) ->
  getopt_loop (pre ++ rest) g cfg = getopt_loop rest g' cfg'.
Proof.
  induction pre as [|[c optarg] pre IH]; intros rest g cfg g' cfg' H.
  - by injection H as <- <-.
  - cbn [getopt_loop app] in *.
    option_char c ":"%char; [done|]. option_char c "?"%char; [done|].
    cbn [orb] in *.
    option_char c "h"%char; [done|]. option_char c "v"%char; [done|].
    option_char c "c"%char; [by apply IH|].
    option_char c "s"%char; [by apply IH|].
    option_char c "f"%char; [by apply IH|].
    option_char c "A"%char; [by apply IH|].
    option_char c "U"%char; [by apply IH|].
    option_char c "u"%char; [by apply IH|].
    done.
Qed.

Lemma main_exit_in_options opts args t s :
  getopt_loop opts reset_globals default_config = (t, Exit s) ->
  main opts args = (t, s).
Proof.
  intros H. unfold main, startup. fold default_config. by rewrite H.
Qed.

(** X1. [main], option loop: options are handled from left to right, and the
    first one that is not among [-c -s -f -A -U -u] ends the program, whatever
    follows it and whatever the chip arguments are.  On [?], the answer of
    [getopt_long] for an option it rejects, the run is the report that
    [getopt_long] has written to the standard error stream itself, then
    the short help on the standard output, and the status is 1; on [:] it is
    the short help alone with status 1; [-h] prints the long help and exits
    with 0, [-v] prints the version and exits with 0, any other character
    reports an internal error and exits with 1.  The program writes nothing
    else, and neither the configuration file nor the library is touched. *)
Theorem first_ending_option_decides pre c optarg post args :
  forallb accepted_option pre = true ->
  accepted_option (c, optarg) = false ->
  main (pre ++ (c, optarg) :: post) args =
    if Ascii.eqb c "?" then (GetoptError :: print_short_help, 1)
    else if Ascii.eqb c ":" then (print_short_help, 1)
    else if Ascii.eqb c "h" then (print_long_help, 0)
    else if Ascii.eqb c "v" then (print_version, 0)
    else ([Stderr ("Internal error while parsing options!" +:+ nl)], 1).
Proof.
  intros Hpre Hc.
  pose proof (getopt_loop_accepted_result pre Hpre) as Hloop.
  unfold main, startup. fold default_config.
  rewrite (getopt_loop_app _ _ _ _ _ _ Hloop).
  unfold accepted_option in Hc. cbn in Hc. cbn [getopt_loop].
  option_char c ":"%char; [done|]. option_char c "?"%char; [done|].
  cbn [orb].
  option_char c "h"%char; [done|]. option_char c "v"%char; [done|].
  option_char c "c"%char; [done|].
  option_char c "s"%char; [done|].
  option_char c "f"%char; [done|].
  option_char c "A"%char; [done|].
  option_char c "U"%char; [done|].
  option_char c "u"%char; [done|].
  done.
Qed.

Lemma parse_chip_names_same_flags args : forall g t g',
  parse_chip_names args g = (t, Continue g') -> same_flags g g'.
Proof.
  induction args as [|a args IH]; intros g t g' H.
  - by injection H as _ <-.
  - cbn [parse_chip_names] in H.
    destruct (sensors_parse_chip_name a) as [res parsed].
    destruct (truthy res); [done|].
    destruct (Nat.eqb _ _); [done|]. by apply IH in H.
Qed.

Lemma chips_from_args_same_flags args g t g' :
  chips_from_args args g = (t, Continue g') -> same_flags g g'.
Proof.
  destruct args as [|a args]; [by intros [= _ <-]|].
  apply parse_chip_names_same_flags.
Qed.

(** The chip names of an accepted command line, parsed. *)
Lemma chips_from_args_accepted opts args :
  args_accepted args ->
  exists g,
    chips_from_args args (globals_after opts) = ([], Continue g)
    /\ spec_list g = specs_of_args args
    /\ same_flags (globals_after opts) g
    /\ (1 <= chips_count g < CHIPS_MAX)%nat
    /\ length (chips g) = CHIPS_MAX.
Proof.
  intros [Hwf Hlen]. destruct args as [|a args].
  - eexists. split; [reflexivity|]. split_and!; try done.
    cbn. unfold CHIPS_MAX. lia.
  - destruct (parse_chip_names_fit (a :: args) (globals_after opts) Hwf)
      as (g & Hp & Hn & Hl & Htake & _); [done|done|].
    exists g. split; [done|].
    change (chips_count (globals_after opts)) with 0%nat in Hn, Htake.
    split_and!.
    + rewrite spec_list_take by lia. by rewrite Htake.
    + by apply parse_chip_names_same_flags in Hp.
    + simpl in Hn. lia.
    + lia.
    + done.
Qed.

(** X2. [main] up to the dispatcher: when no option ends the program,
    every chip argument parses, there are fewer than [CHIPS_MAX] of them,
    the configuration file is [-] or opens, and [sensors_init] returns 0,
    the dispatcher is reached.  Up to there the program calls [sensors_init]
    once, on the file named by the last [-c], writes only what a failing
    [fclose] reports (which does not stop it), and leaves the specs of the
    command line in order (the all-wildcard spec for no argument) and the
    flags the option letters stand for. *)
Theorem startup_reaches_dispatch opts args :
  forallb accepted_option opts = true ->
  args_accepted args ->
  (config_after opts default_config = "-"%string
   \/ fopen_succeeds (config_after opts default_config) = true) ->
  sensors_init (config_after opts default_config) = 0 ->
  exists g,
    startup opts args
    = (SensorsInit (config_after opts default_config)
         :: close_events (config_after opts default_config), Continue g)
    /\ spec_list g = specs_of_args args
    /\ same_flags (globals_after opts) g.
Proof.
  intros Hopts Hargs Hopen Hinit.
  destruct (chips_from_args_accepted opts args Hargs)
    as (g & Hchips & Hspecs & Hflags & _).
  exists g. split; [|done].
  unfold startup. fold default_config.
  rewrite (getopt_loop_accepted_result opts Hopts). cbn [bind].
  rewrite Hchips. cbn [bind].
  assert (open_config_file (config_after opts default_config) = ret tt) as ->.
  { unfold open_config_file. destruct Hopen as [-> | Hopen]; [done|]. rewrite Hopen.
    by destruct (String.eqb _ _). }
  cbn [bind ret emit]. rewrite Hinit. cbn [truthy Z.eqb negb].
  unfold close_config_file, close_events.
  by destruct (fclose_succeeds _).
Qed.

Lemma parse_chip_names_app pre : forall rest g g',
  parse_chip_names pre g = ([], Continue g') ->
  parse_chip_names (pre ++ rest) g = parse_chip_names rest g'.
Proof.
  induction pre as [|a pre IH]; intros rest g g' H.
  - by injection H as <-.
  - cbn [parse_chip_names app] in *.
    destruct (sensors_parse_chip_name a) as [res parsed].
    destruct (truthy res); [done|].
    destruct (Nat.eqb _ _); [done|]. by apply IH.
Qed.

Lemma sprintf_parse_error a :
  sprintf ("Parse error in chip name `%s'" +:+ nl) [ArgS (Some a)]
  = "Parse error in chip name `" +:+ a +:+ "'" +:+ nl.
Proof. reflexivity. Qed.

(** X3. [main], chip arguments: the first chip argument the parser
    refuses, when fewer than [CHIPS_MAX] accepted ones precede it, ends the
    program with status 1 after the line [Parse error in chip name `<arg>']
    on the error stream and the short help; the arguments after it are not
    looked at, and neither the configuration file nor the library is
    touched. *)
Theorem parse_error_is_fatal opts pre bad post :
  forallb accepted_option opts = true ->
  Forall well_formed pre -> (length pre < CHIPS_MAX)%nat ->
  ~ well_formed bad ->
  main opts (pre ++ bad :: post)
  = (Stderr ("Parse error in chip name `" +:+ bad +:+ "'" +:+ nl)
       :: print_short_help, 1).
Proof.
  intros Hopts Hwf Hlen Hbad.
  unfold main, startup. fold default_config.
  rewrite (getopt_loop_accepted_result opts Hopts). cbn [bind].
  assert (chips_from_args (pre ++ bad :: post) (globals_after opts)
          = (Stderr ("Parse error in chip name `" +:+ bad +:+ "'" +:+ nl)
               :: print_short_help, Exit 1)) as ->; [|done].
  assert (chips_from_args (pre ++ bad :: post) (globals_after opts)
          = parse_chip_names (pre ++ bad :: post) (globals_after opts)) as ->.
  { by destruct pre. }
  destruct (parse_chip_names_fit pre (globals_after opts) Hwf)
    as (g & Hp & _); [done|done|].
  rewrite (parse_chip_names_app _ _ _ _ Hp).
  cbn [parse_chip_names]. unfold well_formed in Hbad.
  destruct (sensors_parse_chip_name bad) as [res parsed]. cbn [fst] in Hbad.
  assert (truthy res = true) as -> by (by apply negb_true_iff, Z.eqb_neq).
  reflexivity.
Qed.

(** X4. [open_config_file] in [main]: with an accepted command line, a
    configuration file other than [-] that [fopen] cannot open ends the
    program with status 1 after [Could not open config file] and the
    [perror] line of the file name; [sensors_init] is not called and no
    chip is handled. *)
Theorem config_file_open_failure_is_fatal opts args :
  forallb accepted_option opts = true ->
  args_accepted args ->
  config_after opts default_config <> "-"%string ->
  fopen_succeeds (config_after opts default_config) = false ->
  main opts args
  = ([Stderr ("Could not open config file" +:+ nl);
      Perror (config_after opts default_config)], 1).
Proof.
  intros Hopts Hargs Hname Hopen.
  destruct (chips_from_args_accepted opts args Hargs) as (g & Hchips & _).
  unfold main, startup. fold default_config.
  rewrite (getopt_loop_accepted_result opts Hopts). cbn [bind].
  rewrite Hchips. cbn [bind]. unfold open_config_file.
  rewrite (proj2 (String.eqb_neq _ _) Hname), Hopen. reflexivity.
Qed.

(** X5. [main], initialisation: with an accepted command line and a
    configuration file that is [-] or opens, a non-zero result of
    [sensors_init] ends the program with status 1 after the line
    [sensors_init: <sensors_strerror of the result>]; the file is not
    closed, [sensors_cleanup] is not called and no chip is handled. *)
Theorem sensors_init_failure_is_fatal opts args :
  forallb accepted_option opts = true ->
  args_accepted args ->
  (config_after opts default_config = "-"%string
   \/ fopen_succeeds (config_after opts default_config) = true) ->
  sensors_init (config_after opts default_config) <> 0 ->
  main opts args
  = ([SensorsInit (config_after opts default_config);
      Stderr ("sensors_init: "
                +:+ sensors_strerror (sensors_init (config_after opts default_config))
                +:+ nl)], 1).
Proof.
  intros Hopts Hargs Hopen Hinit.
  destruct (chips_from_args_accepted opts args Hargs) as (g & Hchips & _).
  unfold main, startup. fold default_config.
  rewrite (getopt_loop_accepted_result opts Hopts). cbn [bind].
  rewrite Hchips. cbn [bind].
  assert (open_config_file (config_after opts default_config) = ret tt) as ->.
  { unfold open_config_file. destruct Hopen as [-> | Hopen]; [done|].
    rewrite Hopen. by destruct (String.eqb _ _). }
  cbn [bind ret emit].
  assert (truthy (sensors_init (config_after opts default_config)) = true) as ->.
  { by apply negb_true_iff, Z.eqb_neq. }
  reflexivity.
Qed.

Lemma getopt_loop_Continue_accepted opts : forall g cfg t r,
  getopt_loop opts g cfg = (t, Continue r) -> forallb accepted_option opts = true.
Proof.
  induction opts as [|[c optarg] opts IH]; intros g cfg t r H; [done|].
  cbn [getopt_loop] in H. cbn [forallb]. unfold accepted_option at 1. cbn.
  option_char c ":"%char; [done|]. option_char c "?"%char; [done|].
  cbn [orb] in H.
  option_char c "h"%char; [done|]. option_char c "v"%char; [done|].
  option_char c "c"%char; [by apply IH in H|].
  option_char c "s"%char; [by apply IH in H|].
  option_char c "f"%char; [by apply IH in H|].
  option_char c "A"%char; [by apply IH in H|].
  option_char c "U"%char; [by apply IH in H|].
  option_char c "u"%char; [by apply IH in H|].
  done.
Qed.

Lemma parse_chip_names_Continue_accepted args : forall g t g',
  parse_chip_names args g = (t, Continue g') ->
  (chips_count g < CHIPS_MAX)%nat ->
  Forall well_formed args /\ (chips_count g + length args < CHIPS_MAX)%nat.
Proof.
  induction args as [|a args IH]; intros g t g' H Hlt.
  - split; [done|]. simpl. lia.
  - cbn [parse_chip_names] in H.
    destruct (sensors_parse_chip_name a) as [res parsed] eqn:Hp.
    destruct (truthy res) eqn:Hres; [done|].
    cbn [set_chips set_chips_count chips_count chips] in H.
    destruct (Nat.eqb_spec (S (chips_count g)) CHIPS_MAX) as [|Hne]; [done|].
    apply IH in H as [Hwf Hlen]; [|simpl; lia]. simpl in Hlen. split.
    + apply Forall_cons. split; [|done]. unfold well_formed. rewrite Hp.
      simpl. by apply negb_false_iff, Z.eqb_eq in Hres.
    + simpl. lia.
Qed.

Lemma startup_Continue_inv opts args t g :
  startup opts args = (t, Continue g) ->
  forallb accepted_option opts = true
  /\ args_accepted args
  /\ (config_after opts default_config = "-"%string
      \/ fopen_succeeds (config_after opts default_config) = true)
  /\ sensors_init (config_after opts default_config) = 0
  /\ t = SensorsInit (config_after opts default_config)
           :: close_events (config_after opts default_config)
  /\ spec_list g = specs_of_args args
  /\ same_flags (globals_after opts) g
  /\ (1 <= chips_count g < CHIPS_MAX)%nat
  /\ length (chips g) = CHIPS_MAX.
Proof.
  intros Hstart. unfold startup in Hstart. fold default_config in Hstart.
  apply bind_Continue in Hstart as (t1 & [g1 cfg] & t2 & Hopt & H & ->).
  pose proof (getopt_loop_Continue_accepted _ _ _ _ _ Hopt) as Hopts.
  rewrite (getopt_loop_accepted_result opts Hopts) in Hopt.
  injection Hopt as <- <- <-.
  apply bind_Continue in H as (t3 & g2 & t4 & Hargs & H & ->).
  assert (args_accepted args) as Haccepted.
  { destruct args as [|a args]; [split; [done|cbn; unfold CHIPS_MAX; lia]|].
    cbn [chips_from_args] in Hargs.
    apply parse_chip_names_Continue_accepted in Hargs; [done|].
    cbn. unfold CHIPS_MAX. lia. }
  destruct (chips_from_args_accepted opts args Haccepted)
    as (g' & Hchips & Hspecs & Hflags & Hcount & Hlen).
  rewrite Hchips in Hargs. injection Hargs as <- <-.
  apply bind_Continue in H as (t5 & [] & t6 & Hopen & H & ->).
  apply bind_Continue in H as (t7 & [] & t8 & Hemit & H & ->).
  injection Hemit as <-.
  destruct (truthy (sensors_init _)) eqn:Hinit.
  { apply bind_Continue in H as (? & ? & ? & _ & ? & _). done. }
  apply bind_Continue in H as (t9 & [] & t10 & Hclose & H & ->).
  injection H as <- <-.
  apply negb_false_iff, Z.eqb_eq in Hinit.
  assert (t5 = [] /\ (config_after opts default_config = "-"%string
                      \/ fopen_succeeds (config_after opts default_config) = true))
    as [-> Hopened].
  { unfold open_config_file in Hopen.
    destruct (String.eqb_spec (config_after opts default_config) "-").
    - injection Hopen as <-. split; [done|by left].
    - destruct (fopen_succeeds _); [|done]. injection Hopen as <-.
      split; [done|by right]. }
  assert (t9 = close_events (config_after opts default_config)) as ->.
  { unfold close_config_file in Hclose. unfold close_events.
    destruct (fclose_succeeds _); by injection Hclose as <-. }
  split_and!; try done; try lia. by rewrite app_nil_r.
Qed.

(** X6. [main] up to the dispatcher, the converse of X2: whenever the
    dispatcher is reached, no option ended the program, every chip argument
    parsed and there were fewer than [CHIPS_MAX] of them, the configuration
    file was [-] or opened, and [sensors_init] returned 0; the events so far
    are the call of [sensors_init] and what closing the file reported, and
    the dispatcher starts with between 1 and [CHIPS_MAX - 1] specs in an
    array of [CHIPS_MAX] entries. *)
Theorem dispatch_only_after_a_clean_start opts args t g :
  startup opts args = (t, Continue g) ->
  forallb accepted_option opts = true
  /\ args_accepted args
  /\ (config_after opts default_config = "-"%string
      \/ fopen_succeeds (config_after opts default_config) = true)
  /\ sensors_init (config_after opts default_config) = 0
  /\ t = SensorsInit (config_after opts default_config)
           :: close_events (config_after opts default_config)
  /\ spec_list g = specs_of_args args
  /\ same_flags (globals_after opts) g
  /\ (1 <= chips_count g < CHIPS_MAX)%nat
  /\ length (chips g) = CHIPS_MAX.
Proof. apply startup_Continue_inv. Qed.

Lemma cleanups_app t t' : cleanups (t ++ t') = (cleanups t + cleanups t')%nat.
Proof. unfold cleanups. by rewrite List.filter_app, length_app. Qed.

Lemma cleanups_messages t : messages_only t -> cleanups t = 0%nat.
Proof.
  unfold cleanups. induction 1 as [|ev t Hev _ IH]; [done|].
  simpl. by destruct ev.
Qed.

Lemma sets_calls_messages t : messages_only t -> sets_calls t = [].
Proof.
  induction 1 as [|ev t Hev _ IH]; [done|]. by destruct ev.
Qed.

Ltac messages := unfold messages_only; by repeat constructor.

Lemma getopt_loop_Exit opts : forall g cfg t s,
  getopt_loop opts g cfg = (t, Exit s) ->
  (s = 0 \/ s = 1) /\ messages_only t.
Proof.
  induction opts as [|[c optarg] opts IH]; intros g cfg t s H; [done|].
  cbn [getopt_loop] in H.
  option_char c ":"%char; [injection H as <- <-; split; [auto|messages]|].
  option_char c "?"%char; [injection H as <- <-; split; [auto|messages]|].
  cbn [orb] in H.
  option_char c "h"%char; [injection H as <- <-; split; [auto|messages]|].
  option_char c "v"%char; [injection H as <- <-; split; [auto|messages]|].
  option_char c "c"%char; [by apply IH in H|].
  option_char c "s"%char; [by apply IH in H|].
  option_char c "f"%char; [by apply IH in H|].
  option_char c "A"%char; [by apply IH in H|].
  option_char c "U"%char; [by apply IH in H|].
  option_char c "u"%char; [by apply IH in H|].
  injection H as <- <-; split; [auto|messages].
Qed.

Lemma parse_chip_names_Exit args : forall g t s,
  parse_chip_names args g = (t, Exit s) -> s = 1 /\ messages_only t.
Proof.
  induction args as [|a args IH]; intros g t s H; [done|].
  cbn [parse_chip_names] in H.
  destruct (sensors_parse_chip_name a) as [res parsed].
  destruct (truthy res); [injection H as <- <-; split; [auto|messages]|].
  destruct (Nat.eqb _ _); [injection H as <- <-; split; [auto|messages]|].
  by apply IH in H.
Qed.

Lemma bind_Exit {A B} (m : prog A) (k : A -> prog B) t s :
  bind m k = (t, Exit s) ->
  m = (t, Exit s)
  \/ exists t1 a t2, m = (t1, Continue a) /\ k a = (t2, Exit s) /\ t = t1 ++ t2.
Proof.
  unfold bind. destruct m as [t1 [s'|a]]; [intros [= <- <-]; by left|].
  destruct (k a) as [t2 r] eqn:Hk. intros [= <- ->]. right. eauto 10.
Qed.

(** A start that ends the program. *)
Lemma startup_Exit opts args t s :
  startup opts args = (t, Exit s) -> (s = 0 \/ s = 1) /\ messages_only t.
Proof.
  unfold startup. intros H.
  apply bind_Exit in H as [H|(t1 & [g1 cfg] & t2 & Hopt & H & ->)];
    [by apply getopt_loop_Exit in H|].
  apply getopt_loop_Continue in Hopt as (-> & _).
  apply bind_Exit in H as [H|(t3 & g2 & t4 & Hargs & H & ->)].
  { destruct args as [|a args]; [done|].
    apply parse_chip_names_Exit in H as [-> ?]. auto. }
  apply chips_from_args_Continue in Hargs as ->.
  apply bind_Exit in H as [H|(t5 & [] & t6 & Hopen & H & ->)].
  { unfold open_config_file in H. destruct (String.eqb _ _); [done|].
    destruct (fopen_succeeds _); [done|]. injection H as <- <-.
    split; [auto|messages]. }
  assert (t5 = []) as ->.
  { unfold open_config_file in Hopen. destruct (String.eqb _ _);
      [by injection Hopen|]. by destruct (fopen_succeeds _); [injection Hopen|]. }
  apply bind_Exit in H as [H|(t7 & [] & t8 & Hemit & H & ->)]; [done|].
  injection Hemit as <-.
  destruct (truthy (sensors_init cfg)).
  - injection H as <- <-. split; [auto|messages].
  - apply bind_Exit in H as [H|(t9 & [] & t10 & _ & H & _)]; [|done].
    unfold close_config_file in H. by destruct (fclose_succeeds _).
Qed.

Lemma cleanups_match_events chip i k : cleanups (match_events chip i k) = 0%nat.
Proof.
  unfold cleanups, match_events. revert i.
  induction k as [|k IH]; intros i; [done|]. simpl. apply IH.
Qed.

Lemma cleanups_dispatch g :
  cleanups (trace (do_the_real_work g)) = 0%nat.
Proof.
  rewrite do_the_real_work_spec. cbn [trace].
  induction detected_chips as [|chip l IH]; [done|].
  cbn [fmap list_fmap concat]. rewrite cleanups_app, IH.
  unfold chip_events. destruct (first_match g chip).
  - rewrite cleanups_app, cleanups_match_events. unfold action.
    destruct (truthy (do_sets g)); cbn [fst].
    + unfold do_a_set. by repeat case_match.
    + unfold do_a_print. by repeat case_match.
  - by rewrite cleanups_match_events.
Qed.

(** X7. [main]: the exit status of every run is 0 or 1, whatever the
    options, the chip arguments and the library do. *)
Theorem exit_status_is_0_or_1 opts args :
  snd (main opts args) = 0 \/ snd (main opts args) = 1.
Proof.
  unfold main. destruct (startup opts args) as [t [s|g]] eqn:Hstart.
  - by apply startup_Exit in Hstart as [? _].
  - unfold report.
    destruct (negb _); cbn [snd]; [apply error_0_or_1|by right].
Qed.

(** X8. [main]: [sensors_cleanup] is called exactly once, as the last
    event, in every run that reaches the dispatcher, and not at all in a
    run that ends before. *)
Theorem cleanup_once_after_init opts args :
  match startup opts args with
  | (_, Continue _) =>
      exists t, fst (main opts args) = t ++ [SensorsCleanup]
                /\ cleanups t = 0%nat
  | (_, Exit _) => cleanups (fst (main opts args)) = 0%nat
  end.
Proof.
  unfold main. destruct (startup opts args) as [t [s|g]] eqn:Hstart.
  - apply startup_Exit in Hstart as [_ ?]. by apply cleanups_messages.
  - apply startup_Continue_inv in Hstart as (_ & _ & _ & _ & -> & _).
    set (cfg := config_after opts default_config).
    assert (cleanups (SensorsInit cfg :: close_events cfg) = 0%nat) as Hnone.
    { unfold close_events. by destruct (fclose_succeeds cfg). }
    unfold report. destruct (negb _); cbn [fst].
    + exists ((SensorsInit cfg :: close_events cfg) ++ trace (do_the_real_work g)).
      split; [by rewrite app_assoc|].
      by rewrite cleanups_app, cleanups_dispatch, Hnone.
    + exists ((SensorsInit cfg :: close_events cfg) ++ trace (do_the_real_work g)
                ++ [not_found_message g]).
      split; [by rewrite <- !app_assoc|].
      rewrite !cleanups_app, cleanups_dispatch, Hnone. unfold not_found_message.
      by case_bool_decide.
Qed.

Lemma config_after_app pre post dflt :
  config_after (pre ++ post) dflt = config_after post (config_after pre dflt).
Proof. apply foldl_app. Qed.

Lemma config_after_no_c opts dflt :
  existsb (fun o => Ascii.eqb (fst o) "c") opts = false ->
  config_after opts dflt = dflt.
Proof.
  revert dflt. induction opts as [|[c optarg] opts IH]; intros dflt H; [done|].
  cbn [existsb fst] in H. apply orb_false_iff in H as [Hc H].
  unfold config_after. cbn [foldl fst snd]. rewrite Hc. by apply IH.
Qed.

(** X9. [main], option [-c]: in a run that reaches the dispatcher,
    [sensors_init] is the first event; it is given the argument of the last
    [-c] of the command line, and [ETCDIR/sensors.conf] when there is
    none. *)
Theorem last_config_option_wins opts args t g :
  startup opts args = (t, Continue g) ->
  (existsb (fun o => Ascii.eqb (fst o) "c") opts = false ->
   hd_error t = Some (SensorsInit (ETCDIR +:+ "/" +:+ DEFAULT_CONFIG_FILE_NAME)))
  /\ (forall pre name post,
        opts = pre ++ ("c"%char, name) :: post ->
        existsb (fun o => Ascii.eqb (fst o) "c") post = false ->
        hd_error t = Some (SensorsInit name)).
Proof.
  intros Hstart.
  apply startup_Continue_inv in Hstart as (_ & _ & _ & _ & -> & _).
  cbn [hd_error]. split.
  - intros Hnone. by rewrite config_after_no_c.
  - intros pre name post -> Hnone.
    rewrite config_after_app. change (("c"%char, name) :: post)
      with ([("c"%char, name)] ++ post).
    rewrite config_after_app. by rewrite config_after_no_c.
Qed.

Lemma flag_after_0 c opts :
  is_flag (flag_after c opts 0)
  /\ (flag_after c opts 0 = 1 <-> c ∈ (fst <$> opts)).
Proof.
  unfold flag_after, is_flag.
  destruct (existsb _ opts) eqn:He.
  - split; [by right|]. split; [intros _|done].
    apply existsb_exists in He as ([c' a] & Hin & Hc). cbn in Hc.
    apply Ascii.eqb_eq in Hc as ->. apply list_elem_of_fmap.
    exists (c, a). split; [done|]. by apply list_elem_of_In.
  - split; [by left|]. split; [done|]. intros Hin%list_elem_of_fmap.
    destruct Hin as ([c' a] & Hc & Hin). cbn in Hc. subst c'.
    apply not_true_iff_false in He. exfalso. apply He.
    apply existsb_exists. exists (c, a). split; [by apply list_elem_of_In|].
    apply Ascii.eqb_refl.
Qed.

(** X10. [main], option loop: in a run that reaches the dispatcher each
    of the five flags is 0 or 1, and it is 1 exactly when its letter is among
    the options: [-s] for [do_sets], [-f] for [fahrenheit], [-A] for
    [hide_adapter], [-U] for [hide_unknown], [-u] for [do_unknown].  The
    order and the number of occurrences do not matter. *)
Theorem flags_follow_the_option_letters opts args t g :
  startup opts args = (t, Continue g) ->
  (is_flag (do_sets g) /\ (do_sets g = 1 <-> "s"%char ∈ (fst <$> opts)))
  /\ (is_flag (fahrenheit g) /\ (fahrenheit g = 1 <-> "f"%char ∈ (fst <$> opts)))
  /\ (is_flag (hide_adapter g) /\ (hide_adapter g = 1 <-> "A"%char ∈ (fst <$> opts)))
  /\ (is_flag (hide_unknown g) /\ (hide_unknown g = 1 <-> "U"%char ∈ (fst <$> opts)))
  /\ (is_flag (do_unknown g) /\ (do_unknown g = 1 <-> "u"%char ∈ (fst <$> opts))).
Proof.
  intros Hstart.
  apply startup_Continue_inv in Hstart
    as (_ & _ & _ & _ & _ & _ & (Hs & Hu & Hf & HA & HU) & _).
  rewrite Hs, Hu, Hf, HA, HU. cbn [globals_after do_sets fahrenheit hide_adapter
    hide_unknown do_unknown].
  split_and!; apply flag_after_0.
Qed.

End Start.

(** ** Whole runs of the dispatcher *)

Section Runs.

Context `{L : libsensors}.

Lemma selected_true g chip :
  selected g chip = true <-> some_spec_matches g chip.
Proof.
  unfold selected, some_spec_matches, first_match.
  rewrite bool_decide_eq_true. split.
  - intros [k Hk]. destruct (list_find _ _) as [[j s]|] eqn:Hf; [|done].
    apply list_find_Some in Hf as (Hl & Hs & _).
    exists s. split; [|done]. by eapply list_elem_of_lookup_2.
  - intros (s & Hin & Hs).
    destruct (list_find (fun s => sensors_match_chip chip s = true) (spec_list g))
      as [[j s']|] eqn:Hf; [by eexists|].
    apply list_find_None in Hf. rewrite Forall_forall in Hf.
    by apply Hf in Hin.
Qed.

Lemma action_same_flags g g' chip :
  same_flags g g' -> action g' chip = action g chip.
Proof.
  intros (Hs & Hu & _ & HA & HU). unfold action, do_a_print.
  by rewrite Hs, Hu, HA, HU.
Qed.

Lemma acts_app t t' : acts (t ++ t') = acts t ++ acts t'.
Proof. apply List.filter_app. Qed.

Lemma acts_match_events chip i k : acts (match_events chip i k) = [].
Proof.
  unfold match_events. revert i. induction k as [|k IH]; intros i; [done|].
  simpl. apply IH.
Qed.

Lemma acts_action g chip : acts (fst (action g chip)) = fst (action g chip).
Proof.
  unfold action. destruct (truthy (do_sets g)); cbn [fst].
  - unfold do_a_set. by repeat case_match.
  - unfold do_a_print. by repeat case_match.
Qed.

Lemma acts_chip_events g chip :
  acts (chip_events g chip) = if selected g chip then fst (action g chip) else [].
Proof.
  unfold chip_events, selected. destruct (first_match g chip).
  - rewrite bool_decide_eq_true_2 by eauto.
    by rewrite acts_app, acts_match_events, acts_action.
  - rewrite bool_decide_eq_false_2 by (by intros [? ?]).
    apply acts_match_events.
Qed.

(** The run without its matcher calls. *)
Lemma acts_do_the_real_work g :
  acts (trace (do_the_real_work g))
  = concat ((fun chip => fst (action g chip))
              <$> List.filter (selected g) detected_chips).
Proof.
  rewrite do_the_real_work_spec. cbn [trace].
  induction detected_chips as [|chip l IH]; [done|].
  cbn [fmap list_fmap concat List.filter]. rewrite acts_app, IH, acts_chip_events.
  by destruct (selected g chip).
Qed.

Lemma existsb_ext {A} (f f' : A -> bool) (l : list A) :
  (forall x, f x = f' x) -> existsb f l = existsb f' l.
Proof. intros H. induction l as [|x l IH]; [done|]. simpl. by rewrite H, IH. Qed.

Lemma selected_perm g g' chip :
  spec_list g ≡ₚ spec_list g' -> selected g' chip = selected g chip.
Proof.
  intros Hperm. apply eq_true_iff_eq. rewrite !selected_true.
  unfold some_spec_matches. by setoid_rewrite Hperm.
Qed.

(** X11. [do_the_real_work]: the order of the specs changes only which
    calls of the matcher are made.  With the
    same flags and the same specs in another order, the count, the error
    flag and everything done to the chips and written, in order, are the
    same. *)
Theorem spec_order_is_immaterial g g' :
  spec_list g ≡ₚ spec_list g' -> same_flags g g' ->
  cnt (do_the_real_work g') = cnt (do_the_real_work g)
  /\ error (do_the_real_work g') = error (do_the_real_work g)
  /\ acts (trace (do_the_real_work g')) = acts (trace (do_the_real_work g)).
Proof.
  intros Hperm Hflags.
  assert (Hfilter : List.filter (selected g') detected_chips
                    = List.filter (selected g) detected_chips).
  { apply List.filter_ext. intros chip. by apply selected_perm. }
  split_and!.
  - rewrite !do_the_real_work_spec. cbn [cnt]. by rewrite Hfilter.
  - rewrite !do_the_real_work_spec. cbn [error].
    rewrite (existsb_ext _ (fun chip => selected g chip && snd (action g chip)));
      [done|].
    intros chip. by rewrite (selected_perm g g' chip Hperm),
      (action_same_flags g g' chip Hflags).
  - rewrite !acts_do_the_real_work, Hfilter. f_equal.
    apply list_fmap_ext. intros _ chip _. by rewrite (action_same_flags g g').
Qed.

(** Two sets of globals under which every detected chip is treated
    alike. *)
Lemma do_the_real_work_ext g g' :
  (forall chip, chip ∈ detected_chips ->
     chip_events g' chip = chip_events g chip
     /\ selected g' chip = selected g chip
     /\ snd (action g' chip) = snd (action g chip)) ->
  do_the_real_work g' = do_the_real_work g.
Proof.
  rewrite !do_the_real_work_spec.
  induction detected_chips as [|chip l IH]; intros H; [done|].
  destruct (H chip) as (Hev & Hsel & Hact); [left|].
  specialize (IH (fun c Hc => H c (list_elem_of_further _ _ _ Hc))).
  injection IH as Hcnt Herr Htrace.
  cbn [List.filter existsb fmap list_fmap concat].
  rewrite Hev, Hsel, Hact, Htrace. f_equal.
  - destruct (selected g chip); cbn [length]; by rewrite Hcnt.
  - destruct (selected g chip && snd (action g chip)); [done|]. cbn [orb].
    exact Herr.
Qed.

(** X12. [do_the_real_work]: the specs after one that matches every
    detected chip are never consulted: the run is the run with the spec
    list cut after that spec, event for event. *)
Theorem specs_after_a_catch_all_are_dead g k :
  (k < chips_count g)%nat ->
  (forall chip, chip ∈ detected_chips ->
     sensors_match_chip chip (chips g !!! k) = true) ->
  do_the_real_work g = do_the_real_work (set_chips_count (S k) g).
Proof.
  intros Hk Hall. symmetry. apply do_the_real_work_ext. intros chip Hin.
  assert (first_match g chip = first_match (set_chips_count (S k) g) chip) as Hfirst.
  { destruct (first_match (set_chips_count (S k) g) chip) as [j|] eqn:Hf.
    - apply first_match_Some in Hf as (Hj & Hm & Hmin). cbn in Hj, Hm, Hmin.
      apply first_match_Some. split_and!; [lia|done|done].
    - exfalso. rewrite first_match_None in Hf.
      specialize (Hf k). cbn in Hf. rewrite Hall in Hf by done.
      by specialize (Hf ltac:(lia)). }
  assert (is_Some (first_match g chip)) as [j Hj].
  { destruct (first_match g chip) eqn:Hf; [by eexists|]. exfalso.
    rewrite first_match_None in Hf. specialize (Hf k Hk).
    by rewrite Hall in Hf. }
  unfold chip_events, selected. rewrite Hfirst. rewrite <- Hfirst, Hj.
  split_and!; done.
Qed.

Lemma match_calls_app t t' :
  match_calls (t ++ t') = (match_calls t + match_calls t')%nat.
Proof. unfold match_calls. by rewrite List.filter_app, length_app. Qed.

Lemma match_calls_match_events chip i k :
  match_calls (match_events chip i k) = k.
Proof.
  unfold match_calls, match_events. revert i.
  induction k as [|k IH]; intros i; [done|]. simpl. by rewrite IH.
Qed.

Lemma match_calls_action g chip : match_calls (fst (action g chip)) = 0%nat.
Proof.
  unfold action. destruct (truthy (do_sets g)); cbn [fst].
  - unfold do_a_set. by repeat case_match.
  - unfold do_a_print. by repeat case_match.
Qed.

Lemma match_calls_chip_events g chip :
  (match_calls (chip_events g chip) <= chips_count g)%nat
  /\ (selected g chip = false ->
      match_calls (chip_events g chip) = chips_count g).
Proof.
  unfold chip_events, selected. destruct (first_match g chip) as [k|] eqn:Hf.
  - rewrite match_calls_app, match_calls_match_events, match_calls_action.
    apply first_match_Some in Hf as (Hk & _).
    rewrite bool_decide_eq_true_2 by eauto. split; [lia|done].
  - by rewrite match_calls_match_events.
Qed.

Lemma match_calls_on_app chip t t' :
  match_calls_on chip (t ++ t')
  = (match_calls_on chip t + match_calls_on chip t')%nat.
Proof. unfold match_calls_on. by rewrite List.filter_app, length_app. Qed.

Lemma match_calls_on_match_events chip i k :
  match_calls_on chip (match_events chip i k) = k.
Proof.
  unfold match_calls_on, match_events. revert i.
  induction k as [|k IH]; intros i; [done|]. cbn [seq fmap list_fmap].
  cbn [List.filter is_match_call_on]. rewrite bool_decide_eq_true_2 by done.
  cbn [length]. f_equal. apply IH.
Qed.

Lemma match_calls_on_action g chip c :
  match_calls_on c (fst (action g chip)) = 0%nat.
Proof.
  unfold action. destruct (truthy (do_sets g)); cbn [fst].
  - unfold do_a_set. by repeat case_match.
  - unfold do_a_print. by repeat case_match.
Qed.

(** The matcher calls for one detected chip are all on that chip. *)
Lemma match_calls_on_chip_events g chip :
  match_calls_on chip (chip_events g chip) = match_calls (chip_events g chip)
  /\ (selected g chip = true -> (1 <= match_calls (chip_events g chip))%nat).
Proof.
  unfold chip_events, selected. destruct (first_match g chip) as [k|] eqn:Hf.
  - rewrite match_calls_on_app, match_calls_app, match_calls_on_match_events,
      match_calls_match_events, match_calls_on_action, match_calls_action.
    split; [done|]. intros _. lia.
  - rewrite match_calls_on_match_events, match_calls_match_events.
    split; [done|]. intros H. apply bool_decide_eq_true in H.
    by destruct H.
Qed.

(** X13. [do_the_real_work]: the count is at most the number of detected
    chips.  The run is made of one stretch of events for each detected
    chip, in detection order; in the stretch of a chip the matcher is
    called at most [chips_count] times, on that chip only, at least once
    when the chip is selected and exactly [chips_count] times when it is
    not.  Over the run the matcher is hence called at most [chips_count]
    times the number of detected chips, and exactly that often when no
    chip is selected. *)
Theorem work_is_bounded g :
  (cnt (do_the_real_work g) <= length detected_chips)%nat
  /\ (exists segments,
        trace (do_the_real_work g) = concat segments
        /\ Forall2 (fun chip segment =>
                      (match_calls segment <= chips_count g)%nat
                      /\ match_calls_on chip segment = match_calls segment
                      /\ (selected g chip = true ->
                          (1 <= match_calls segment)%nat)
                      /\ (selected g chip = false ->
                          match_calls segment = chips_count g))
             detected_chips segments)
  /\ (match_calls (trace (do_the_real_work g))
      <= chips_count g * length detected_chips)%nat
  /\ ((forall chip, chip ∈ detected_chips -> selected g chip = false) ->
      match_calls (trace (do_the_real_work g))
      = (chips_count g * length detected_chips)%nat).
Proof.
  split; [apply do_the_real_work_cnt_le|].
  rewrite do_the_real_work_spec. cbn [trace]. split.
  { exists (chip_events g <$> detected_chips). split; [done|].
    apply Forall2_fmap_r, Forall_Forall2_diag, Forall_forall.
    intros chip _.
    destruct (match_calls_chip_events g chip) as [Hle Heq].
    destruct (match_calls_on_chip_events g chip) as [Hon Hge].
    done. }
  induction detected_chips as [|chip l IH].
  - split; [cbn; lia|]. intros _. cbn. lia.
  - cbn [fmap list_fmap concat length]. rewrite match_calls_app.
    destruct IH as [IHle IHeq].
    destruct (match_calls_chip_events g chip) as [Hle Heq]. split; [nia|].
    intros Hnone. rewrite Heq by (apply Hnone; left).
    rewrite IHeq; [nia|]. intros c Hc. apply Hnone. by right.
Qed.

(** X14. [do_the_real_work], inner loop: handling one more detected
    chip raises the count by at most one, never clears the error flag (it
    stays or becomes 1), and only adds events after those already
    there. *)
Theorem inner_loop_keeps_what_is_done g chip w :
  (cnt w <= cnt (scan_chips g chip 0 w) <= S (cnt w))%nat
  /\ (error w = 1 -> error (scan_chips g chip 0 w) = 1)
  /\ (error (scan_chips g chip 0 w) = error w
      \/ error (scan_chips g chip 0 w) = 1)
  /\ exists t, trace (scan_chips g chip 0 w) = trace w ++ t.
Proof.
  rewrite scan_chips_spec. cbn [cnt error trace].
  split; [destruct (selected g chip); lia|].
  split; [intros ->; by destruct (_ && _)|].
  split; [destruct (_ && _); auto|eauto].
Qed.

Lemma snd_action_set g chip :
  truthy (do_sets g) = true ->
  (snd (action g chip) = true <-> sets_refused chip).
Proof.
  intros Hs. unfold action, sets_refused. rewrite Hs. cbn [snd].
  rewrite do_a_set_ret. unfold truthy.
  destruct (Z.eqb_spec (sensors_do_chip_sets chip) 0) as [H0|H0];
    destruct (Z.eqb_spec (sensors_do_chip_sets chip) (- SENSORS_ERR_PROC));
    cbn; split; try done; intros []; done.
Qed.

(** X15. [do_the_real_work] with [do_a_set]: in set mode the error
    flag is 1 exactly when the writes of some detected chip that a spec
    matches are refused with [-SENSORS_ERR_PROC] (and that value is not 0),
    and it is 0 otherwise. *)
Theorem set_mode_error_flag g :
  truthy (do_sets g) = true ->
  (error (do_the_real_work g) = 1 <->
   exists chip, chip ∈ detected_chips /\ some_spec_matches g chip
                /\ sets_refused chip)
  /\ (error (do_the_real_work g) <> 1 -> error (do_the_real_work g) = 0).
Proof.
  intros Hs. rewrite do_the_real_work_spec. cbn [error].
  destruct (existsb _ detected_chips) eqn:He.
  - split; [|done]. split; [intros _|done].
    apply existsb_exists in He as (chip & Hin & Hc).
    apply andb_true_iff in Hc as [Hsel Hact]. exists chip. split_and!.
    + by apply list_elem_of_In.
    + by apply selected_true.
    + by apply (snd_action_set g).
  - split; [|done]. split; [done|]. intros (chip & Hin & Hsel & Href). exfalso.
    apply not_true_iff_false in He. apply He. apply existsb_exists.
    exists chip. split; [by apply list_elem_of_In|].
    apply andb_true_iff. split; [by apply selected_true|by apply snd_action_set].
Qed.

Lemma concat_chip_events_nil {A} g (f : list event -> list A) :
  (forall t t', f (t ++ t') = f t ++ f t') ->
  (forall chip i k, f (match_events chip i k) = []) ->
  (forall chip, chip ∈ detected_chips -> selected g chip = true ->
     f (fst (action g chip)) = []) ->
  f (trace (do_the_real_work g)) = [].
Proof.
  intros Happ Hmatch Hact. rewrite do_the_real_work_spec. cbn [trace].
  induction detected_chips as [|chip l IH].
  - apply (Hmatch zero_chip_name 0%nat 0%nat).
  - cbn [fmap list_fmap concat]. rewrite Happ, IH, app_nil_r.
    + unfold chip_events. destruct (first_match g chip) eqn:Hf.
      * rewrite Happ, Hmatch. apply Hact; [left|].
        unfold selected. rewrite Hf. by apply bool_decide_eq_true_2.
      * apply Hmatch.
    + intros c Hc. apply Hact. by right.
Qed.

Lemma printed_match_events chip i k : printed (match_events chip i k) = [].
Proof.
  unfold match_events. revert i. induction k as [|k IH]; intros i; [done|].
  simpl. apply IH.
Qed.

(** X16. [do_the_real_work] with [do_a_set]: in set mode no chip is
    printed and no chip printer is called; when the writes of every selected
    chip succeed, nothing at all is written to either stream and the error
    flag is 0. *)
Theorem set_mode_is_quiet g :
  truthy (do_sets g) = true ->
  printed (trace (do_the_real_work g)) = []
  /\ printer_calls (trace (do_the_real_work g)) = []
  /\ ((forall chip, chip ∈ detected_chips -> selected g chip = true ->
         sensors_do_chip_sets chip = 0) ->
      output (trace (do_the_real_work g)) = []
      /\ error (do_the_real_work g) = 0).
Proof.
  intros Hs. split_and!.
  - apply concat_chip_events_nil;
      auto using printed_app, printed_match_events.
    intros chip _ _. unfold action. rewrite Hs. cbn [fst].
    unfold do_a_set. by repeat case_match.
  - apply concat_chip_events_nil;
      auto using printer_calls_app, printer_calls_match_events.
    intros chip _ _. unfold action. rewrite Hs. cbn [fst].
    unfold do_a_set. by repeat case_match.
  - intros Hok. split.
    + apply concat_chip_events_nil;
        auto using output_app, output_match_events.
      intros chip Hin Hsel. unfold action. rewrite Hs. cbn [fst].
      unfold do_a_set. by rewrite (Hok chip Hin Hsel).
    + rewrite do_the_real_work_spec. cbn [error].
      rewrite existsb_false_forall; [done|]. intros chip Hin.
      destruct (selected g chip) eqn:Hsel; [|done]. cbn [andb].
      unfold action. rewrite Hs. cbn [snd]. rewrite do_a_set_ret.
      by rewrite (Hok chip Hin Hsel).
Qed.

Lemma stderr_lines_app t t' :
  stderr_lines (t ++ t') = stderr_lines t ++ stderr_lines t'.
Proof. apply omap_app. Qed.

Lemma stderr_lines_match_events chip i k :
  stderr_lines (match_events chip i k) = [].
Proof.
  unfold match_events. revert i. induction k as [|k IH]; intros i; [done|].
  simpl. apply IH.
Qed.

Lemma stderr_lines_do_a_print g chip :
  stderr_lines (do_a_print g chip) =
    if truthy (hide_unknown g) || truthy (hide_adapter g) then []
    else if bool_decide (sensors_get_adapter_name (bus chip) = None)
         then [no_adapter_line chip] else [].
Proof.
  unfold do_a_print.
  destruct (truthy (hide_unknown g)); [done|].
  destruct (truthy (hide_adapter g)); cbn [orb negb].
  - by destruct (truthy (do_unknown g)).
  - destruct (sensors_get_adapter_name (bus chip)) eqn:Ha.
    + rewrite bool_decide_eq_false_2 by done. by destruct (truthy (do_unknown g)).
    + rewrite bool_decide_eq_true_2 by done. by destruct (truthy (do_unknown g)).
Qed.

(** X17. [do_the_real_work] with [do_a_print]: in print mode the
    lines on the error stream are exactly [Can't get adapter name for bus
    <bus>], one for each selected chip whose bus has no adapter name, in
    detection order; with [-U] or [-A] there is none. *)
Theorem print_mode_diagnostics g :
  truthy (do_sets g) = false ->
  stderr_lines (trace (do_the_real_work g)) =
    if truthy (hide_unknown g) || truthy (hide_adapter g) then []
    else no_adapter_line <$> List.filter (nameless g) detected_chips.
Proof.
  intros Hs. rewrite do_the_real_work_spec. cbn [trace].
  induction detected_chips as [|chip l IH].
  { by destruct (_ || _). }
  cbn [fmap list_fmap concat List.filter]. rewrite stderr_lines_app, IH.
  unfold chip_events, nameless, selected.
  destruct (first_match g chip) eqn:Hf.
  - rewrite bool_decide_eq_true_2 by eauto.
    rewrite stderr_lines_app, stderr_lines_match_events.
    unfold action. rewrite Hs. cbn [fst app andb].
    rewrite stderr_lines_do_a_print.
    destruct (_ || _); [done|]. by destruct (bool_decide _).
  - rewrite bool_decide_eq_false_2 by (by intros [? ?]).
    rewrite stderr_lines_match_events. cbn [andb app].
    by destruct (_ || _).
Qed.

End Runs.

(** ** Chip names and addresses *)

Section Names.

Context `{L : libsensors}.

Lemma append_inv_head s a b : s +:+ a = s +:+ b -> a = b.
Proof.
  induction s as [|c s IH]; [done|]. rewrite !append_cons.
  intros [= H]. by apply IH.
Qed.

Lemma cut_short s :
  (String.length (cut s) < BUF_SIZE - 1)%nat -> cut s = s.
Proof.
  unfold cut. rewrite length_substring. intros H.
  apply substring_all. lia.
Qed.

(** The rendering as the text in front of the address and the address. *)
Lemma sprintf_chip_name_front name :
  exists (front : option string -> Z -> option string -> string) (w : nat),
    (1 <= w <= 8)%nat
    /\ forall name', bus name' = bus name ->
         sprintf_chip_name name'
         = cut (front (prefix name') (bus name') (busname name')
                  +:+ pct_x true w (addr name')).
Proof.
  destruct (bus name =? SENSORS_CHIP_NAME_BUS_ISA) eqn:Hisa;
    [|destruct (bus name =? SENSORS_CHIP_NAME_BUS_PCI) eqn:Hpci;
      [|destruct (bus name =? SENSORS_CHIP_NAME_BUS_DUMMY) eqn:Hdummy]].
  - exists (fun p _ _ => pct_s p +:+ "-isa-"), 4%nat. split; [lia|].
    intros name' Hbus. unfold sprintf_chip_name, snprintf, cut.
    by rewrite Hbus, Hisa, sprintf_isa, append_assoc.
  - exists (fun p _ _ => pct_s p +:+ "-pci-"), 4%nat. split; [lia|].
    intros name' Hbus. unfold sprintf_chip_name, snprintf, cut.
    by rewrite Hbus, Hisa, Hpci, sprintf_pci, append_assoc.
  - exists (fun p _ b => pct_s p +:+ "-" +:+ pct_s b +:+ "-"), 4%nat.
    split; [lia|].
    intros name' Hbus. unfold sprintf_chip_name, snprintf, cut.
    by rewrite Hbus, Hisa, Hpci, Hdummy, sprintf_dummy, !append_assoc.
  - exists (fun p n _ => pct_s p +:+ "-i2c-" +:+ pct_d n +:+ "-"), 2%nat.
    split; [lia|].
    intros name' Hbus. unfold sprintf_chip_name, snprintf, cut.
    by rewrite Hbus, Hisa, Hpci, Hdummy, sprintf_i2c, !append_assoc.
Qed.

(** X18. [sprintf_chip_name]: two chips with the same prefix, bus and
    bus name whose rendering is the same and is not cut by the buffer have
    the same address as an unsigned 32-bit number, hence the same address
    when both are in that range. *)
Theorem chip_names_tell_addresses_apart name name' :
  prefix name' = prefix name -> bus name' = bus name ->
  busname name' = busname name ->
  (String.length (sprintf_chip_name name) < BUF_SIZE - 1)%nat ->
  sprintf_chip_name name' = sprintf_chip_name name ->
  to_unsigned (addr name') = to_unsigned (addr name)
  /\ (0 <= addr name < 2 ^ 32 -> 0 <= addr name' < 2 ^ 32 ->
      addr name' = addr name).
Proof.
  intros Hprefix Hbus Hbusname Hshort Hsame.
  destruct (sprintf_chip_name_front name) as (front & w & Hw & Hfront).
  pose proof (Hfront name eq_refl) as Hname.
  pose proof (Hfront name' Hbus) as Hname'.
  rewrite Hprefix, Hbus, Hbusname in Hname'.
  assert (Hshort' : (String.length (sprintf_chip_name name') < BUF_SIZE - 1)%nat)
    by (by rewrite Hsame).
  rewrite Hname in Hshort. rewrite Hname' in Hshort'.
  rewrite (cut_short _ Hshort) in Hname.
  rewrite (cut_short _ Hshort') in Hname'.
  rewrite Hname, Hname' in Hsame. apply append_inv_head in Hsame.
  destruct (pct_x_zero_spec w (addr name) Hw) as (Hv & _).
  destruct (pct_x_zero_spec w (addr name') Hw) as (Hv' & _).
  rewrite Hsame, Hv in Hv'. injection Hv' as Hv'.
  split; [done|]. intros Hr Hr'. unfold to_unsigned in Hv'.
  by rewrite !Z.mod_small in Hv' by lia.
Qed.

(** X19. [sprintf_chip_name]: the string returned has fewer than
    [BUF_SIZE] characters, whatever the prefix, the bus name and the
    address are: with its terminator it fits the static buffer. *)
Theorem chip_name_fits_its_buffer name :
  (String.length (sprintf_chip_name name) < BUF_SIZE)%nat.
Proof.
  unfold sprintf_chip_name, snprintf.
  repeat case_match; rewrite length_substring; unfold BUF_SIZE; lia.
Qed.

End Names.

(** ** The end of the program *)

Section Report.

Context `{L : libsensors}.

Lemma first_spec g :
  (1 <= chips_count g)%nat -> hd_error (spec_list g) = Some (chips g !!! 0%nat).
Proof.
  intros H. unfold spec_list. destruct (chips_count g); [lia|]. done.
Qed.

(** X20. [main], report: when the dispatcher handled no chip, the run
    ends with one line on the error stream, [sensors_cleanup] and status 1.
    The line is the [No sensors found!] text when there is no chip argument
    or the first chip argument has the wildcard prefix, and [Specified
    sensor(s) not found!] otherwise; the other chip arguments do not
    matter. *)
Theorem not_found_message_follows_the_first_name opts args t g :
  startup opts args = (t, Continue g) ->
  cnt (do_the_real_work g) = 0%nat ->
  (args = [] ->
   main opts args
   = (t ++ trace (do_the_real_work g)
        ++ [Stderr no_sensors_found; SensorsCleanup], 1))
  /\ (forall a rest, args = a :: rest ->
        main opts args
        = (t ++ trace (do_the_real_work g)
             ++ [Stderr (if bool_decide (prefix (snd (sensors_parse_chip_name a))
                                         = SENSORS_CHIP_NAME_PREFIX_ANY)
                         then no_sensors_found else specified_not_found);
                 SensorsCleanup], 1)).
Proof.
  intros Hstart Hcnt.
  pose proof (startup_Continue_inv _ _ _ _ Hstart)
    as (_ & _ & _ & _ & _ & Hspecs & _ & Hcount & _).
  pose proof (first_spec g ltac:(lia)) as Hfirst. rewrite Hspecs in Hfirst.
  rewrite (main_Continue _ _ _ _ Hstart). unfold report. rewrite Hcnt.
  cbn [Nat.eqb negb fst snd]. unfold not_found_message.
  split.
  - intros ->. cbn in Hfirst. injection Hfirst as <-.
    rewrite bool_decide_eq_true_2 by done. reflexivity.
  - intros a rest ->. cbn in Hfirst. injection Hfirst as <-.
    by case_bool_decide.
Qed.

Lemma sets_calls_not_found g : sets_calls [not_found_message g] = [].
Proof. unfold not_found_message. by case_bool_decide. Qed.

(** X21. [main] with [do_the_real_work]: without [-s] among the
    options, [sensors_do_chip_sets] is never called, however the run
    ends. *)
Theorem without_set_option_no_chip_is_written opts args :
  "s"%char ∉ (fst <$> opts) ->
  sets_calls (fst (main opts args)) = [].
Proof.
  intros Hs. unfold main.
  destruct (startup opts args) as [t [s|g]] eqn:Hstart.
  - apply startup_Exit in Hstart as [_ Ht]. by apply sets_calls_messages.
  - pose proof (startup_Continue_inv _ _ _ _ Hstart)
      as (_ & _ & _ & _ & -> & _ & (Hsets & _) & _).
    assert (truthy (do_sets g) = false) as Hmode.
    { rewrite Hsets. cbn [globals_after do_sets].
      destruct (flag_after_0 "s" opts) as [[H0|H1] Hiff]; [by rewrite H0|].
      by apply Hiff in H1. }
    assert (sets_calls (trace (do_the_real_work g)) = []) as Hnone.
    { apply concat_chip_events_nil;
        auto using sets_calls_app, sets_calls_match_events.
      intros chip _ _. unfold action. rewrite Hmode. cbn [fst].
      unfold do_a_print. by repeat case_match. }
    assert (sets_calls (SensorsInit (config_after opts default_config)
                          :: close_events (config_after opts default_config)) = [])
      as Hstartup.
    { unfold close_events. by destruct (fclose_succeeds _). }
    unfold report. destruct (negb _); cbn [fst].
    + by rewrite !sets_calls_app, Hstartup, Hnone.
    + by rewrite !sets_calls_app, Hstartup, Hnone, sets_calls_not_found.
Qed.

End Report.

(** ** Instances on the further sample systems *)

Lemma first_ending_option_decides_witness :
  forallb accepted_option [("s"%char, EmptyString)] = true
  /\ accepted_option ("?"%char, EmptyString) = false
  /\ accepted_option ("v"%char, EmptyString) = false
  /\ @main Cases.fine
       ([("s"%char, EmptyString)] ++ ("?"%char, EmptyString)
          :: [("h"%char, EmptyString)]) ["*"%string]
     = ([GetoptError;
         Stdout ("Try `sensors -h' for more information" +:+ nl)], 1)
  /\ @main Cases.fine
       ([("s"%char, EmptyString)] ++ ("v"%char, EmptyString)
          :: [("x"%char, EmptyString)]) ["*"%string]
     = ([Stdout ("sensors version 2.10.8 with libsensors version 2.10.8"
                   +:+ nl)], 0).
Proof.
  split_and!; [reflexivity|reflexivity|reflexivity| |].
  - exact (@first_ending_option_decides Cases.fine [("s"%char, EmptyString)]
             "?"%char EmptyString [("h"%char, EmptyString)] ["*"%string]
             eq_refl eq_refl).
  - exact (@first_ending_option_decides Cases.fine [("s"%char, EmptyString)]
             "v"%char EmptyString [("x"%char, EmptyString)] ["*"%string]
             eq_refl eq_refl).
Defined.

Lemma startup_reaches_dispatch_witness :
  forallb accepted_option [("c"%char, "-"%string)] = true
  /\ @args_accepted Cases.unclosed ["*"%string; "w83781d-*"%string]
  /\ @config_after [("c"%char, "-"%string)] (@default_config Cases.unclosed)
     = "-"%string
  /\ @sensors_init Cases.unclosed "-"%string = 0
  /\ exists g,
       @startup Cases.unclosed [("c"%char, "-"%string)]
         ["*"%string; "w83781d-*"%string]
       = ([SensorsInit "-";
           Stderr ("Could not close config file" +:+ nl);
           Perror "-"], Continue g)
       /\ @spec_list g = [Sample.any_spec; Sample.w83781d_spec].
Proof.
  assert (Hargs : @args_accepted Cases.unclosed ["*"%string; "w83781d-*"%string]).
  { split; [by repeat constructor|vm_compute; lia]. }
  split_and!; [reflexivity|exact Hargs|reflexivity|reflexivity|].
  destruct (@startup_reaches_dispatch Cases.unclosed [("c"%char, "-"%string)]
              ["*"%string; "w83781d-*"%string] eq_refl Hargs
              (or_introl eq_refl) eq_refl) as (g & Hstart & Hspecs & _).
  exists g. split; [exact Hstart|exact Hspecs].
Defined.

Lemma dispatch_only_after_a_clean_start_witness :
  @startup Cases.fine [] ["w83781d-*"%string]
  = ([SensorsInit "/etc/sensors.conf"], Continue Sample.globals_w83781d)
  /\ @args_accepted Cases.fine ["w83781d-*"%string]
  /\ @sensors_init Cases.fine "/etc/sensors.conf" = 0
  /\ @spec_list Sample.globals_w83781d = [Sample.w83781d_spec]
  /\ (1 <= chips_count Sample.globals_w83781d < CHIPS_MAX)%nat.
Proof.
  destruct (@dispatch_only_after_a_clean_start Cases.fine []
              ["w83781d-*"%string] [SensorsInit "/etc/sensors.conf"]
              Sample.globals_w83781d eq_refl)
    as (_ & Hargs & _ & Hinit & _ & Hspecs & _ & Hcount & _).
  split_and!; [reflexivity|exact Hargs|exact Hinit|exact Hspecs
              |exact (proj1 Hcount)|exact (proj2 Hcount)].
Defined.

Lemma last_config_option_wins_witness :
  @startup Cases.fine
    ([("c"%char, "a.conf"%string)] ++ ("c"%char, "b.conf"%string) :: []) []
  = ([SensorsInit "b.conf"], Continue (Sample.globals_any 0 0))
  /\ existsb (fun o : ascii * string => Ascii.eqb (fst o) "c") [] = false
  /\ hd_error [SensorsInit "b.conf"] = Some (SensorsInit "b.conf").
Proof.
  split_and!; [reflexivity|reflexivity|].
  exact (proj2 (@last_config_option_wins Cases.fine
                  ([("c"%char, "a.conf"%string)]
                     ++ ("c"%char, "b.conf"%string) :: [])
                  [] [SensorsInit "b.conf"] (Sample.globals_any 0 0) eq_refl)
           [("c"%char, "a.conf"%string)] "b.conf"%string [] eq_refl eq_refl).
Defined.

Lemma flags_follow_the_option_letters_witness :
  @startup Cases.fine [("s"%char, EmptyString); ("U"%char, EmptyString)] []
  = ([SensorsInit "/etc/sensors.conf"], Continue (Sample.globals_any 1 1))
  /\ do_sets (Sample.globals_any 1 1) = 1
  /\ "s"%char ∈ (fst <$> [("s"%char, EmptyString); ("U"%char, EmptyString)])
  /\ hide_adapter (Sample.globals_any 1 1) = 0
  /\ "A"%char ∉ (fst <$> [("s"%char, EmptyString); ("U"%char, EmptyString)]).
Proof.
  destruct (@flags_follow_the_option_letters Cases.fine
              [("s"%char, EmptyString); ("U"%char, EmptyString)] []
              [SensorsInit "/etc/sensors.conf"] (Sample.globals_any 1 1)
              eq_refl)
    as ((_ & Hs) & _ & (_ & HA) & _).
  split_and!; [reflexivity|reflexivity|exact (proj1 Hs eq_refl)|reflexivity|].
  intros Hin. apply HA in Hin. discriminate Hin.
Defined.

Lemma parse_error_is_fatal_witness :
  forallb accepted_option [] = true
  /\ Forall (@well_formed Cases.fine) ["*"%string]
  /\ (length ["*"%string] < CHIPS_MAX)%nat
  /\ ~ @well_formed Cases.fine "lm78"%string
  /\ @main Cases.fine [] (["*"%string] ++ "lm78"%string :: ["*"%string])
     = ([Stderr ("Parse error in chip name `lm78'" +:+ nl);
         Stdout ("Try `sensors -h' for more information" +:+ nl)], 1).
Proof.
  assert (Hwf : Forall (@well_formed Cases.fine) ["*"%string])
    by (by repeat constructor).
  assert (Hlen : (length ["*"%string] < CHIPS_MAX)%nat) by (vm_compute; lia).
  assert (Hbad : ~ @well_formed Cases.fine "lm78"%string) by discriminate.
  split_and!; [reflexivity|exact Hwf|exact Hlen|exact Hbad|].
  exact (@parse_error_is_fatal Cases.fine [] ["*"%string] "lm78"%string
           ["*"%string] eq_refl Hwf Hlen Hbad).
Defined.

Lemma config_file_open_failure_is_fatal_witness :
  forallb accepted_option [] = true
  /\ @args_accepted Cases.unopened []
  /\ @config_after [] (@default_config Cases.unopened) <> "-"%string
  /\ @fopen_succeeds Cases.unopened
       (@config_after [] (@default_config Cases.unopened)) = false
  /\ @main Cases.unopened [] []
     = ([Stderr ("Could not open config file" +:+ nl);
         Perror "/etc/sensors.conf"], 1).
Proof.
  assert (Hargs : @args_accepted Cases.unopened [])
    by (split; [constructor|vm_compute; lia]).
  assert (Hname : @config_after [] (@default_config Cases.unopened) <> "-"%string)
    by discriminate.
  split_and!; [reflexivity|exact Hargs|exact Hname|reflexivity|].
  exact (@config_file_open_failure_is_fatal Cases.unopened [] [] eq_refl Hargs
           Hname eq_refl).
Defined.

Lemma sensors_init_failure_is_fatal_witness :
  forallb accepted_option [] = true
  /\ @args_accepted Cases.uninitialised []
  /\ @fopen_succeeds Cases.uninitialised
       (@config_after [] (@default_config Cases.uninitialised)) = true
  /\ @sensors_init Cases.uninitialised
       (@config_after [] (@default_config Cases.uninitialised)) <> 0
  /\ @main Cases.uninitialised [] []
     = ([SensorsInit "/etc/sensors.conf";
         Stderr ("sensors_init: Kernel interface error" +:+ nl)], 1).
Proof.
  assert (Hargs : @args_accepted Cases.uninitialised [])
    by (split; [constructor|vm_compute; lia]).
  assert (Hinit : @sensors_init Cases.uninitialised
                    (@config_after [] (@default_config Cases.uninitialised)) <> 0)
    by discriminate.
  split_and!; [reflexivity|exact Hargs|reflexivity|exact Hinit|].
  exact (@sensors_init_failure_is_fatal Cases.uninitialised [] [] eq_refl Hargs
           (or_intror eq_refl) Hinit).
Defined.

Lemma not_found_message_follows_the_first_name_witness :
  @startup Cases.fine [] ["w83781d-*"%string]
  = ([SensorsInit "/etc/sensors.conf"], Continue Sample.globals_w83781d)
  /\ cnt (@do_the_real_work Cases.fine Sample.globals_w83781d) = 0%nat
  /\ @main Cases.fine [] ["w83781d-*"%string]
     = ([SensorsInit "/etc/sensors.conf"]
          ++ trace (@do_the_real_work Cases.fine Sample.globals_w83781d)
          ++ [Stderr specified_not_found; SensorsCleanup], 1).
Proof.
  split_and!; [reflexivity|reflexivity|].
  exact (proj2 (@not_found_message_follows_the_first_name Cases.fine []
                  ["w83781d-*"%string] [SensorsInit "/etc/sensors.conf"]
                  Sample.globals_w83781d eq_refl eq_refl)
           "w83781d-*"%string [] eq_refl).
Defined.

Lemma without_set_option_no_chip_is_written_witness :
  ("s"%char ∉ (fst <$> [("f"%char, EmptyString)]))
  /\ sets_calls (fst (@main Cases.fine [("f"%char, EmptyString)] ["*"%string]))
     = [].
Proof.
  assert (Hs : "s"%char ∉ (fst <$> [("f"%char, EmptyString)])).
  { intros Hin. apply list_elem_of_singleton in Hin. discriminate Hin. }
  split; [exact Hs|].
  exact (@without_set_option_no_chip_is_written Cases.fine
           [("f"%char, EmptyString)] ["*"%string] Hs).
Defined.

Lemma spec_order_is_immaterial_witness :
  spec_list (Cases.globals_specs Sample.w83781d_spec Sample.any_spec 0)
    ≡ₚ spec_list (Cases.globals_specs Sample.any_spec Sample.w83781d_spec 0)
  /\ cnt (@do_the_real_work Cases.fine
            (Cases.globals_specs Sample.any_spec Sample.w83781d_spec 0))
     = cnt (@do_the_real_work Cases.fine
              (Cases.globals_specs Sample.w83781d_spec Sample.any_spec 0))
  /\ acts (trace (@do_the_real_work Cases.fine
                    (Cases.globals_specs Sample.any_spec Sample.w83781d_spec 0)))
     = acts (trace (@do_the_real_work Cases.fine
                      (Cases.globals_specs Sample.w83781d_spec Sample.any_spec 0))).
Proof.
  assert (Hperm :
    spec_list (Cases.globals_specs Sample.w83781d_spec Sample.any_spec 0)
      ≡ₚ spec_list (Cases.globals_specs Sample.any_spec Sample.w83781d_spec 0)).
  { exact (perm_swap Sample.any_spec Sample.w83781d_spec []). }
  destruct (@spec_order_is_immaterial Cases.fine
              (Cases.globals_specs Sample.w83781d_spec Sample.any_spec 0)
              (Cases.globals_specs Sample.any_spec Sample.w83781d_spec 0)
              Hperm
              (conj eq_refl (conj eq_refl (conj eq_refl (conj eq_refl eq_refl)))))
    as (Hcnt & _ & Hacts).
  split_and!; [exact Hperm|exact Hcnt|exact Hacts].
Defined.

Lemma specs_after_a_catch_all_are_dead_witness :
  (0 < chips_count (Cases.globals_specs Sample.any_spec Sample.w83781d_spec 0))%nat
  /\ (forall chip, chip ∈ @detected_chips Cases.fine ->
        @sensors_match_chip Cases.fine chip
          (chips (Cases.globals_specs Sample.any_spec Sample.w83781d_spec 0)
             !!! 0%nat) = true)
  /\ @do_the_real_work Cases.fine
       (Cases.globals_specs Sample.any_spec Sample.w83781d_spec 0)
     = @do_the_real_work Cases.fine (Sample.globals_any 0 0).
Proof.
  assert (Hk : (0 < chips_count
                      (Cases.globals_specs Sample.any_spec Sample.w83781d_spec 0))%nat)
    by (simpl; lia).
  assert (Hall : forall chip, chip ∈ @detected_chips Cases.fine ->
            @sensors_match_chip Cases.fine chip
              (chips (Cases.globals_specs Sample.any_spec Sample.w83781d_spec 0)
                 !!! 0%nat) = true).
  { intros chip Hin. apply list_elem_of_In in Hin. simpl in Hin.
    destruct Hin as [<-|[<-|[]]]; reflexivity. }
  split_and!; [exact Hk|exact Hall|].
  exact (eq_trans
           (@specs_after_a_catch_all_are_dead Cases.fine
              (Cases.globals_specs Sample.any_spec Sample.w83781d_spec 0)
              0%nat Hk Hall)
           eq_refl).
Defined.

Lemma work_is_bounded_witness :
  (forall chip, chip ∈ @detected_chips Cases.fine ->
     @selected Cases.fine Sample.globals_w83781d chip = false)
  /\ match_calls (trace (@do_the_real_work Cases.fine Sample.globals_w83781d))
     = (1 * 2)%nat.
Proof.
  assert (Hnone : forall chip, chip ∈ @detected_chips Cases.fine ->
            @selected Cases.fine Sample.globals_w83781d chip = false).
  { intros chip Hin. apply list_elem_of_In in Hin. simpl in Hin.
    destruct Hin as [<-|[<-|[]]]; reflexivity. }
  split; [exact Hnone|].
  exact (proj2 (proj2 (proj2 (@work_is_bounded Cases.fine
                                Sample.globals_w83781d)))
           Hnone).
Defined.


Lemma inner_loop_keeps_what_is_done_witness :
  error {| cnt := 1; error := 1; trace := [] |} = 1
  /\ error (@scan_chips Cases.fine (Sample.globals_any 1 0) Sample.lm75_i2c 0
              {| cnt := 1; error := 1; trace := [] |}) = 1.
Proof.
  split; [reflexivity|].
  exact (proj1 (proj2 (@inner_loop_keeps_what_is_done Cases.fine
                         (Sample.globals_any 1 0) Sample.lm75_i2c
                         {| cnt := 1; error := 1; trace := [] |}))
           eq_refl).
Defined.

Lemma set_mode_error_flag_witness :
  truthy (do_sets (Sample.globals_any 1 0)) = true
  /\ error (@do_the_real_work Cases.refusing (Sample.globals_any 1 0)) = 1
  /\ exists chip, chip ∈ @detected_chips Cases.refusing
                  /\ @some_spec_matches Cases.refusing (Sample.globals_any 1 0) chip
                  /\ @sets_refused Cases.refusing chip.
Proof.
  split_and!; [reflexivity|reflexivity|].
  exact (proj1 (proj1 (@set_mode_error_flag Cases.refusing
                         (Sample.globals_any 1 0) eq_refl))
           eq_refl).
Defined.

Lemma set_mode_is_quiet_witness :
  truthy (do_sets (Sample.globals_any 1 0)) = true
  /\ (forall chip, chip ∈ @detected_chips Cases.fine ->
        @selected Cases.fine (Sample.globals_any 1 0) chip = true ->
        @sensors_do_chip_sets Cases.fine chip = 0)
  /\ output (trace (@do_the_real_work Cases.fine (Sample.globals_any 1 0))) = []
  /\ error (@do_the_real_work Cases.fine (Sample.globals_any 1 0)) = 0.
Proof.
  assert (Hok : forall chip, chip ∈ @detected_chips Cases.fine ->
            @selected Cases.fine (Sample.globals_any 1 0) chip = true ->
            @sensors_do_chip_sets Cases.fine chip = 0)
    by (intros chip _ _; reflexivity).
  split_and!; [reflexivity|exact Hok| |];
    apply (proj2 (proj2 (@set_mode_is_quiet Cases.fine (Sample.globals_any 1 0)
                           eq_refl)) Hok).
Defined.

Lemma print_mode_diagnostics_witness :
  truthy (do_sets (Sample.globals_any 0 0)) = false
  /\ stderr_lines (trace (@do_the_real_work Cases.half_named
                            (Sample.globals_any 0 0)))
     = ["Can't get adapter name for bus 0" +:+ nl].
Proof.
  split; [reflexivity|].
  exact (eq_trans (@print_mode_diagnostics Cases.half_named
                     (Sample.globals_any 0 0) eq_refl)
           eq_refl).
Defined.

Lemma chip_names_tell_addresses_apart_witness :
  (String.length (@sprintf_chip_name Cases.fine Sample.lm78_isa) < BUF_SIZE - 1)%nat
  /\ @sprintf_chip_name Cases.fine Sample.lm78_isa
     = @sprintf_chip_name Cases.fine Sample.lm78_isa
  /\ to_unsigned (addr Sample.lm78_isa) = to_unsigned (addr Sample.lm78_isa).
Proof.
  assert (Hlen : (String.length (@sprintf_chip_name Cases.fine Sample.lm78_isa)
                  < BUF_SIZE - 1)%nat) by (vm_compute; lia).
  split_and!; [exact Hlen|reflexivity|].
  exact (proj1 (@chip_names_tell_addresses_apart Cases.fine Sample.lm78_isa
                  Sample.lm78_isa eq_refl eq_refl eq_refl Hlen eq_refl)).
Defined.
